(** * extract_clutter_patterns: a shallow embedding and its properties

    The program reads a TypeScript source file, pulls string arrays out of
    it with regular expressions, groups one of the arrays into keyword
    buckets and prints a JSON manifest.

    Text is modelled as [list ascii]: a Python [str] whose characters are
    the code points 0..255.  White space ([str.strip], [\s]) and
    [str.lower] are the ones Python defines on that range.  The part of
    [re] the program uses is embedded as a small backtracking matcher. *)

From Stdlib Require Import Ascii String List Bool Arith Lia Permutation.
Import ListNotations.
Open Scope string_scope.
Open Scope list_scope.
Open Scope nat_scope.

Set Implicit Arguments.

(** Python [str]. *)
Definition str : Type := list ascii.

(** Literals are written as Rocq strings and read as [str]. *)
Definition lit_of (s : string) : str := list_ascii_of_string s.
Coercion lit_of : string >-> str.

Definition dquote : ascii := "034"%char.
Definition squote : ascii := "'"%char.
Definition newline : ascii := "010"%char.

(** One-character pieces for literals that hold a double quote or a line
    break: [("a" ++ NL ++ "b")%string]. *)
Definition DQ : string := String dquote EmptyString.
Definition NL : string := String newline EmptyString.

(* ================================================================== *)
(** ** Python string operations                                         *)
(* ================================================================== *)

Module Py.

Definition code (a : ascii) : nat := nat_of_ascii a.

Definition between (lo hi : nat) (a : ascii) : bool :=
  (lo <=? code a) && (code a <=? hi).

(** [str.isspace] on one character: TAB..CR, FS..US, SPACE, NEL, NBSP. *)
Definition isspace (a : ascii) : bool :=
  between 9 13 a || between 28 32 a || (code a =? 133) || (code a =? 160).

(** [str.lower] on one character: A..Z and the Latin-1 capitals
    (0xC0..0xDE without the multiplication sign 0xD7) move up by 32. *)
Definition lower_char (a : ascii) : ascii :=
  if between 65 90 a || (between 192 222 a && negb (code a =? 215))
  then ascii_of_nat (code a + 32)
  else a.

Definition lower (s : str) : str := map lower_char s.

Fixpoint lstrip (s : str) : str :=
  match s with
  | a :: s' => if isspace a then lstrip s' else s
  | [] => []
  end.

Definition rstrip (s : str) : str := rev (lstrip (rev s)).

(** [s.strip()] *)
Definition strip (s : str) : str := rstrip (lstrip s).

(** [s.startswith(p)] *)
Fixpoint startswith (p s : str) : bool :=
  match p, s with
  | [], _ => true
  | a :: p', b :: s' => Ascii.eqb a b && startswith p' s'
  | _ :: _, [] => false
  end.

(** [p in s] for strings: [p] occurs at some offset of [s]. *)
Fixpoint contains (p s : str) : bool :=
  startswith p s ||
  match s with
  | [] => false
  | _ :: s' => contains p s'
  end.

(** [s.count(a)] for a one-character needle. *)
Definition count (a : ascii) (s : str) : nat :=
  count_occ ascii_dec s a.

(** [s.split(sep)] for a one-character separator: the pieces between the
    separators, at least one piece. *)
Fixpoint split (sep : ascii) (s : str) : list str :=
  match s with
  | [] => [[]]
  | a :: s' =>
      if Ascii.eqb a sep then [] :: split sep s'
      else match split sep s' with
           | piece :: pieces => (a :: piece) :: pieces
           | [] => [[a]]
           end
  end.

(** [sep.join(pieces)] *)
Fixpoint join (sep : str) (pieces : list str) : str :=
  match pieces with
  | [] => []
  | [p] => p
  | p :: ps => p ++ sep ++ join sep ps
  end.

End Py.

(* ================================================================== *)
(** ** The fragment of [re] used by the program                         *)
(* ================================================================== *)

Module Re.

(** Character classes. *)
Inductive cls : Type :=
| Any                        (* [.] under re.DOTALL *)
| Dot                        (* [.] : anything but a newline *)
| Space                      (* [\s] *)
| OneOf (l : list ascii)     (* [[...]] *)
| NoneOf (l : list ascii).   (* [[^...]] *)

Definition mem (a : ascii) (l : list ascii) : bool :=
  existsb (Ascii.eqb a) l.

Definition cls_mem (c : cls) (a : ascii) : bool :=
  match c with
  | Any => true
  | Dot => negb (Ascii.eqb a newline)
  | Space => Py.isspace a
  | OneOf l => mem a l
  | NoneOf l => negb (mem a l)
  end.

(** Patterns.  Repetition is only applied to character classes, which is
    all the program's patterns need; there is one capture group. *)
Inductive regex : Type :=
| Lit (l : str)                           (* literal text *)
| Cls (c : cls)                           (* one character of a class *)
| Rep (c : cls) (min : nat) (greedy : bool)
    (* [c*] [c+] when greedy, [c*?] [c+?] when not; [min] is 0 or 1 *)
| Opt (r : regex)                         (* [r?], greedy *)
| Seq (r1 r2 : regex)
| Grp (r : regex)                         (* [( r )], group 1 *)
| Bos                                     (* [^] without re.MULTILINE *)
| Eos.                                    (* [$] without re.MULTILINE *)

(** The matcher's state: offset in the subject, text still to read,
    and what group 1 captured so far. *)
Record mstate : Type := MState { pos : nat; rest : str; grp : option str }.

Definition advance (n : nat) (st : mstate) : mstate :=
  MState (pos st + n) (skipn n (rest st)) (grp st).

Definition set_grp (g : str) (st : mstate) : mstate :=
  MState (pos st) (rest st) (Some g).

Definition cont : Type := mstate -> option mstate.

Definition orelse (a b : option mstate) : option mstate :=
  match a with Some _ => a | None => b end.

(** [c{min,}] greedy: read as many characters of the class as there are,
    then give characters back one at a time. *)
Fixpoint rep_greedy (c : cls) (min : nat) (k : cont)
         (p : nat) (s : str) (g : option str) : option mstate :=
  let here := if min =? 0 then k (MState p s g) else None in
  match s with
  | a :: s' =>
      if cls_mem c a
      then orelse (rep_greedy c (Nat.pred min) k (S p) s' g) here
      else here
  | [] => here
  end.

(** [c{min,}?] lazy: try the continuation first, read one more character
    of the class only when it fails. *)
Fixpoint rep_lazy (c : cls) (min : nat) (k : cont)
         (p : nat) (s : str) (g : option str) : option mstate :=
  let more :=
    match s with
    | a :: s' =>
        if cls_mem c a then rep_lazy c (Nat.pred min) k (S p) s' g else None
    | [] => None
    end in
  if min =? 0 then orelse (k (MState p s g)) more else more.

(** Backtracking matcher in continuation-passing style: [run r k st]
    is the first way, in the priority order of [re], to match [r] at
    [st] so that the continuation [k] succeeds on what follows. *)
Fixpoint run (r : regex) (k : cont) (st : mstate) : option mstate :=
  match r with
  | Lit l =>
      if Py.startswith l (rest st) then k (advance (length l) st) else None
  | Cls c =>
      match rest st with
      | a :: _ => if cls_mem c a then k (advance 1 st) else None
      | [] => None
      end
  | Rep c min true => rep_greedy c min k (pos st) (rest st) (grp st)
  | Rep c min false => rep_lazy c min k (pos st) (rest st) (grp st)
  | Opt r1 => orelse (run r1 k st) (k st)
  | Seq r1 r2 => run r1 (run r2 k) st
  | Grp r1 =>
      run r1 (fun st' =>
                k (set_grp (firstn (pos st' - pos st) (rest st)) st')) st
  | Bos => if pos st =? 0 then k st else None
  | Eos =>
      match rest st with
      | [] => k st
      | [a] => if Ascii.eqb a newline then k st else None
      | _ => None
      end
  end.

(** One attempt at offset [p], where [s] is the subject from [p] on. *)
Definition match_at (r : regex) (p : nat) (s : str) : option mstate :=
  run r Some (MState p s None).

(** [re.match(r, s)] *)
Definition re_match (r : regex) (s : str) : option mstate :=
  match_at r 0 s.

Fixpoint search_from (r : regex) (p : nat) (s : str) : option mstate :=
  match match_at r p s with
  | Some st => Some st
  | None =>
      match s with
      | [] => None
      | _ :: s' => search_from r (S p) s'
      end
  end.

(** [re.search(r, s)]: the match at the leftmost offset that has one. *)
Definition re_search (r : regex) (s : str) : option mstate :=
  search_from r 0 s.

(** [m.group(1)] of a match in which group 1 took part. *)
Definition group1 (st : mstate) : str :=
  match grp st with Some g => g | None => [] end.

(** [re.findall(r, s)] for a pattern with one group: group 1 of the
    successive non-overlapping matches, left to right.  [skip] counts
    the characters of the previous match still to step over.  (The
    patterns used here never match the empty string.) *)
Fixpoint findall_from (r : regex) (skip p : nat) (s : str) {struct s}
  : list str :=
  match skip with
  | S n =>
      match s with
      | [] => []
      | _ :: s' => findall_from r n (S p) s'
      end
  | 0 =>
      match match_at r p s with
      | Some st =>
          group1 st ::
          match s with
          | [] => []
          | _ :: s' => findall_from r (pos st - p - 1) (S p) s'
          end
      | None =>
          match s with
          | [] => []
          | _ :: s' => findall_from r 0 (S p) s'
          end
      end
  end.

Definition re_findall (r : regex) (s : str) : list str :=
  findall_from r 0 0 s.

End Re.

Import Re.

(* ================================================================== *)
(** ** Array extractor                                                  *)
(* ================================================================== *)

Definition quotes : cls := OneOf [squote; dquote].

(** White space, the equals sign, white space: [\s*=\s*], then [r]. *)
Definition assign_open (r : regex) : regex :=
  Seq (Rep Space 0 true) (Seq (Lit "=") (Seq (Rep Space 0 true) r)).

(** The first pattern of [extract_array], compiled with re.DOTALL:
    the text [export const], the name, [\s*=\s*], an opening bracket, the
    lazily matched body as group 1, a closing bracket, an optional
    [.join(q,q)] call (q either quote, the comma optional) and [;].
    The name is spliced into the pattern text; the callers pass
    identifiers, for which the splice is the literal name. *)
Definition array_pattern (name : str) : regex :=
  Seq (Lit "export const ") (Seq (Lit name)
    (assign_open
      (Seq (Lit "[") (Seq (Grp (Rep Any 0 false)) (Seq (Lit "]")
        (Seq (Opt (Seq (Lit ".join(") (Seq (Cls quotes)
                    (Seq (Opt (Lit ",")) (Seq (Cls quotes) (Lit ")"))))))
             (Lit ";"))))))).

(** The second pattern of [extract_array], compiled with re.DOTALL:
    [export const], the name, [\s*=\s*], the text [new Set(] and an
    opening bracket, the lazy body as group 1, a closing bracket and [)]. *)
Definition set_pattern (name : str) : regex :=
  Seq (Lit "export const ") (Seq (Lit name)
    (assign_open
      (Seq (Lit "new Set([") (Seq (Grp (Rep Any 0 false)) (Lit "])"))))).

(** A single-quoted literal: a quote, one or more characters other than
    the quote as group 1, a quote. *)
Definition single_quoted : regex :=
  Seq (Lit "'") (Seq (Grp (Rep (NoneOf [squote]) 1 true)) (Lit "'")).

(** The same with the double quote. *)
Definition double_quoted : regex :=
  Seq (Lit [dquote]) (Seq (Grp (Rep (NoneOf [dquote]) 1 true)) (Lit [dquote])).

(** What may follow the closing quote on a line: an optional comma,
    white space, an optional line comment ([//] and the rest of the line),
    and the end of the text. *)
Definition line_tail : regex :=
  Seq (Opt (Lit ",")) (Seq (Rep Space 0 true)
    (Seq (Opt (Seq (Lit "//") (Rep Dot 0 true))) Eos)).

(** The whole-line pattern: at the start of the line either quote, one or
    more characters (lazy, no newline) as group 1, either quote, and
    [line_tail]. *)
Definition line_pattern : regex :=
  Seq Bos (Seq (Cls quotes) (Seq (Grp (Rep Dot 1 false))
    (Seq (Cls quotes) line_tail))).

(** The body of the loop over the lines of a multi-line array:
    the item the line contributes, if any. *)
Definition line_item (line : str) : option str :=
  let line := Py.strip line in
  if match line with [] => true | _ => false end
     || Py.startswith "//" line
  then None
  else match re_match line_pattern line with
       | Some m => Some (group1 m)
       | None => None
       end.

(** The loop over [array_content.split(newline)], appending to [items]. *)
Definition collect_lines (array_content : str) : list str :=
  fold_left
    (fun items line =>
       match line_item line with
       | Some item => items ++ [item]
       | None => items
       end)
    (Py.split newline array_content) [].

(** The test that selects the single-line format. *)
Definition single_line (array_content : str) : bool :=
  negb (Py.contains [newline] (Py.strip array_content))
  || (4 <? Py.count squote array_content).

Definition single_line_items (array_content : str) : list str :=
  match re_findall single_quoted array_content with
  | [] => re_findall double_quoted array_content
  | items => items
  end.

(** What [extract_array] does with the captured body. *)
Definition array_items (array_content : str) : list str :=
  if single_line array_content
  then single_line_items array_content
  else collect_lines array_content.

(** The two searches of [extract_array]: the match object, if any. *)
Definition find_array (name content : str) : option mstate :=
  match re_search (array_pattern name) content with
  | Some m => Some m
  | None => re_search (set_pattern name) content
  end.

Definition extract_array (name content : str) : list str :=
  match find_array name content with
  | None => []
  | Some m => array_items (group1 m)
  end.

(** The pattern of [extract_js_array_simple], compiled with re.DOTALL:
    [const], the name, [\s*=\s*], an opening bracket, the lazy body as
    group 1, a closing bracket and [;]. *)
Definition simple_pattern (name : str) : regex :=
  Seq (Lit "const ") (Seq (Lit name)
    (assign_open (Seq (Lit "[") (Seq (Grp (Rep Any 0 false)) (Lit "];"))))).

Definition extract_js_array_simple (name content : str) : list str :=
  match re_search (simple_pattern name) content with
  | None => []
  | Some m => collect_lines (group1 m)
  end.

(* ================================================================== *)
(** ** Categorizer                                                      *)
(* ================================================================== *)

(** A Python [dict] keeps its keys in insertion order, and the order is
    what the result shows: an association list. *)
Definition dict (V : Type) : Type := list (str * V).

Fixpoint str_eqb (a b : str) : bool :=
  match a, b with
  | [], [] => true
  | x :: a', y :: b' => Ascii.eqb x y && str_eqb a' b'
  | _, _ => false
  end.

Definition bucket_names : list str :=
  [ "ads" : str; "navigation" : str; "header_footer" : str; "sidebar" : str;
    "social" : str; "comments" : str; "auth" : str; "newsletter" : str;
    "article_meta" : str; "post_meta" : str; "author" : str; "related" : str;
    "misc" : str ].

(** [categories]: every bucket, empty. *)
Definition categories : dict (list str) :=
  map (fun name => (name, [])) bucket_names.

Definition words (l : list string) : list str := map lit_of l.

Definition category_keywords : dict (list str) :=
  [ ("ads" : str, words ["ad"; "advert"; "promo"; "sponsor"; "banner"]);
    ("navigation" : str,
      words ["nav"; "menu"; "breadcrumb"; "pagination"; "skip"; "jump"]);
    ("header_footer" : str,
      words ["header"; "footer"; "copyright"; "masthead"; "topbar"]);
    ("sidebar" : str, words ["sidebar"; "widget"; "aside"; "rail"]);
    ("social" : str,
      words ["social"; "share"; "facebook"; "twitter"; "instagram"; "rss"]);
    ("comments" : str,
      words ["comment"; "disqus"; "discuss"; "feedback"; "response"]);
    ("auth" : str,
      words ["login"; "sign"; "register"; "access-wall"; "paywall"; "gated"]);
    ("newsletter" : str,
      words ["newsletter"; "subscribe"; "signup"; "email"; "donate"]);
    ("article_meta" : str, words ["article-"; "article_"; "article__"]);
    ("post_meta" : str,
      words ["post-"; "post_"; "entry-"; "byline"; "dateline"; "timestamp";
             "pub"]);
    ("author" : str,
      words ["author"; "bio"; "avatar"; "profile"; "contributor"]);
    ("related" : str,
      words ["related"; "recommend"; "more-"; "read-next"; "keep-reading";
             "popular"; "trending"; "recent"]) ].

(** [any(kw in sel_lower for kw in keywords)] *)
Definition any_keyword (keywords : list str) (sel_lower : str) : bool :=
  existsb (fun kw => Py.contains kw sel_lower) keywords.

(** The inner loop with its [break]: the first category of the table, in
    its order, one of whose keywords occurs in [sel_lower]. *)
Fixpoint first_category (table : dict (list str)) (sel_lower : str)
  : option str :=
  match table with
  | [] => None
  | (category, keywords) :: table' =>
      if any_keyword keywords sel_lower then Some category
      else first_category table' sel_lower
  end.

(** [categories[category].append(selector)] *)
Definition append_to (category selector : str) (cats : dict (list str))
  : dict (list str) :=
  map (fun kv => if str_eqb (fst kv) category
                 then (fst kv, snd kv ++ [selector]) else kv) cats.

(** One turn of the loop over the selectors. *)
Definition categorize_step (cats : dict (list str)) (selector : str)
  : dict (list str) :=
  let sel_lower := Py.lower selector in
  match first_category category_keywords sel_lower with
  | Some category => append_to category selector cats
  | None => append_to "misc" selector cats
  end.

Definition nonempty (A : Type) (l : list A) : bool :=
  match l with [] => false | _ => true end.

Definition categorize_partial_selectors (selectors : list str)
  : dict (list str) :=
  filter (fun kv => nonempty (snd kv))
         (fold_left categorize_step selectors categories).

(* ================================================================== *)
(** ** JSON output                                                      *)
(* ================================================================== *)

Module Json.

#[warnings="-register-all"]
Inductive value : Type :=
| JString (s : str)
| JArray (items : list value)
| JObject (members : list (str * value)).

Definition hex_digit (n : nat) : ascii :=
  nth n (lit_of "0123456789abcdef") "0"%char.

(** One character inside a JSON string, with ensure_ascii. *)
Definition escape_char (a : ascii) : str :=
  let n := Py.code a in
  if n =? 34 then [ "\"%char; dquote ]
  else if n =? 92 then [ "\"%char; "\"%char ]
  else if n =? 10 then lit_of "\n"
  else if n =? 13 then lit_of "\r"
  else if n =? 9 then lit_of "\t"
  else if n =? 8 then lit_of "\b"
  else if n =? 12 then lit_of "\f"
  else if (32 <=? n) && (n <=? 126) then [a]
  else lit_of "\u00" ++ [hex_digit (n / 16); hex_digit (n mod 16)].

Definition encode_string (s : str) : str :=
  [dquote] ++ flat_map escape_char s ++ [dquote].

(** A line break and the indentation of nesting depth [level]. *)
Definition newline_indent (level : nat) : str :=
  newline :: repeat " "%char (2 * level).

(** The text [json.dumps(v, indent=2)] gives for [v] at depth [level]. *)
Fixpoint encode (level : nat) (v : value) : str :=
  match v with
  | JString s => encode_string s
  | JArray [] => lit_of "[]"
  | JArray items =>
      lit_of "[" ++ newline_indent (S level)
      ++ Py.join (lit_of "," ++ newline_indent (S level))
                 (map (encode (S level)) items)
      ++ newline_indent level ++ lit_of "]"
  | JObject [] => lit_of "{}"
  | JObject members =>
      lit_of "{" ++ newline_indent (S level)
      ++ Py.join (lit_of "," ++ newline_indent (S level))
                 (map (fun kv => encode_string (fst kv) ++ lit_of ": "
                                 ++ encode (S level) (snd kv)) members)
      ++ newline_indent level ++ lit_of "}"
  end.

Definition dumps (v : value) : str := encode 0 v.

Definition strings (l : list str) : value := JArray (map JString l).

(** A [dict] of string lists as an object. *)
Definition of_dict (d : dict (list str)) : value :=
  JObject (map (fun kv => (fst kv, strings (snd kv))) d).

(** [v[key]] on an object. *)
Fixpoint lookup (key : str) (members : list (str * value)) : option value :=
  match members with
  | [] => None
  | (k, v) :: members' => if str_eqb k key then Some v else lookup key members'
  end.

(** [v[k1][k2]...] *)
Fixpoint at_path (keys : list str) (v : value) : option value :=
  match keys with
  | [] => Some v
  | key :: keys' =>
      match v with
      | JObject members =>
          match lookup key members with
          | Some v' => at_path keys' v'
          | None => None
          end
      | _ => None
      end
  end.

End Json.
Import Json.

(* ================================================================== *)
(** ** Manifest and entry point                                         *)
(* ================================================================== *)

(** The [manifest] literal of [main], from the text of the two files. *)
Definition manifest (content scoring_content : str) : value :=
  let partial_selectors := extract_array "PARTIAL_SELECTORS" content in
  JObject
  [ ("$comment" : str, JString
      "Web clutter patterns extracted from Defuddle (https://github.com/kepano/defuddle)");
    ("content_selectors" : str, JObject
      [ ("$comment" : str, JString
          "Selectors for finding main content, in priority order");
        ("selectors" : str,
          strings (extract_array "ENTRY_POINT_ELEMENTS" content)) ]);
    ("remove" : str, JObject
      [ ("$comment" : str, JString "Elements to remove from the page");
        ("exact_selectors" : str,
          strings (extract_array "EXACT_SELECTORS" content));
        ("partial_patterns" : str, JObject
          [ ("$comment" : str, JString
              "Substring patterns matched against class/id/data-* attributes (case-insensitive)");
            ("check_attributes" : str,
              strings (extract_array "TEST_ATTRIBUTES" content));
            ("patterns" : str,
              of_dict (categorize_partial_selectors partial_selectors)) ]) ]);
    ("preserve" : str, JObject
      [ ("$comment" : str, JString
          "Elements to preserve during content extraction");
        ("block_elements" : str,
          strings (extract_array "BLOCK_ELEMENTS" content));
        ("preserve_elements" : str,
          strings (extract_array "PRESERVE_ELEMENTS" content));
        ("inline_elements" : str,
          strings (extract_array "INLINE_ELEMENTS" content));
        ("allowed_empty" : str,
          strings (extract_array "ALLOWED_EMPTY_ELEMENTS" content));
        ("allowed_attributes" : str,
          strings (extract_array "ALLOWED_ATTRIBUTES" content)) ]);
    ("footnotes" : str, JObject
      [ ("$comment" : str, JString
          "Selectors for identifying footnotes and citations");
        ("inline_references" : str,
          strings (extract_array "FOOTNOTE_INLINE_REFERENCES" content));
        ("list_selectors" : str,
          strings (extract_array "FOOTNOTE_LIST_SELECTORS" content)) ]);
    ("scoring" : str, JObject
      [ ("$comment" : str, JString
          "Patterns used for content scoring (from scoring.ts)");
        ("content_indicators" : str,
          strings (extract_js_array_simple "contentIndicators" scoring_content));
        ("navigation_indicators" : str,
          strings (extract_js_array_simple "navigationIndicators"
                     scoring_content));
        ("non_content_patterns" : str,
          strings (extract_js_array_simple "nonContentPatterns"
                     scoring_content)) ]) ].

(** What a path of the file system names: a file that reads as text, or
    something [exists()] accepts and [read_text()] raises on (a directory,
    a file that cannot be opened or decoded). *)
Inductive entry : Type :=
| File (text : str)
| Unreadable.

(** How a run ends.  Nothing in the program catches an exception: one
    that escapes ends the run with a traceback on the error stream and
    status 1, whatever was printed before. *)
Inductive outcome : Type :=
| Exit (status : nat) (out err : str)
| Uncaught (out : str).

Definition status (o : outcome) : nat :=
  match o with Exit n _ _ => n | Uncaught _ => 1 end.

Definition stdout (o : outcome) : str :=
  match o with Exit _ out _ => out | Uncaught out => out end.

Section Main.

(** [pathlib] is taken as given: the paths, [Path(text)], [str(path)]
    and [path.parent / name]. *)
Variable path : Type.
Variable Path : str -> path.
Variable path_str : path -> str.
Variable sibling : path -> str -> path.

Definition disk : Type := path -> option entry.

Definition input_path (argv : list str) : path :=
  if length argv <? 2
  then Path "tmp/defuddle/src/constants.ts"
  else Path (nth 1 argv []).

Definition scoring_path (argv : list str) : path :=
  sibling (input_path argv) "scoring.ts".

(** [print(json.dumps(manifest, indent=2))] and the normal end. *)
Definition print_manifest (content scoring_content : str) : outcome :=
  Exit 0 (dumps (manifest content scoring_content) ++ [newline]) [].

Definition main (argv : list str) (d : disk) : outcome :=
  match d (input_path argv) with
  | None =>
      Exit 1 []
        (lit_of "Error: " ++ path_str (input_path argv)
         ++ lit_of " not found" ++ [newline])
  | Some Unreadable => Uncaught []
  | Some (File content) =>
      match d (scoring_path argv) with
      | None => print_manifest content []
      | Some Unreadable => Uncaught []
      | Some (File scoring_content) => print_manifest content scoring_content
      end
  end.

End Main.

(* ================================================================== *)
(** ** Vocabulary of the statements                                     *)
(* ================================================================== *)

(** [p] occurs in [s]. *)
Definition substring (p s : str) : Prop := exists a b, s = a ++ p ++ b.

(** What it means for one attempt of the matcher to succeed, without the
    priorities: [matches r st st'] when [r] can take the matcher from
    [st] to [st']. *)
Inductive matches : regex -> mstate -> mstate -> Prop :=
| m_lit l st :
    Py.startswith l (rest st) = true ->
    matches (Lit l) st (advance (length l) st)
| m_cls c a s st :
    rest st = a :: s -> cls_mem c a = true ->
    matches (Cls c) st (advance 1 st)
| m_rep c min greedy n st :
    min <= n -> n <= length (rest st) ->
    forallb (cls_mem c) (firstn n (rest st)) = true ->
    matches (Rep c min greedy) st (advance n st)
| m_opt_some r st st' : matches r st st' -> matches (Opt r) st st'
| m_opt_none r st : matches (Opt r) st st
| m_seq r1 r2 st st1 st2 :
    matches r1 st st1 -> matches r2 st1 st2 -> matches (Seq r1 r2) st st2
| m_grp r st st' :
    matches r st st' ->
    matches (Grp r) st (set_grp (firstn (pos st' - pos st) (rest st)) st')
| m_bos st : pos st = 0 -> matches Bos st st
| m_eos st : rest st = [] \/ rest st = [newline] -> matches Eos st st.

(** The pattern matches somewhere in the text. *)
Definition occurs (r : regex) (s : str) : Prop :=
  exists i st', i <= length s /\ matches r (MState i (skipn i s) None) st'.

(** Letters, digits and the underscore: the characters of the names the
    program looks for, all of which stand for themselves in a pattern. *)
Definition word_char (a : ascii) : bool :=
  Py.between 48 57 a || Py.between 65 90 a || Py.between 97 122 a
  || (Py.code a =? 95).

Definition identifier (name : str) : bool :=
  nonempty name && forallb word_char name.

(** The bucket the loop of the categorizer puts a selector in. *)
Definition bucket_of (selector : str) : str :=
  match first_category category_keywords (Py.lower selector) with
  | Some category => category
  | None => lit_of "misc"
  end.

(** The pattern holds a group. *)
Fixpoint has_group (r : regex) : bool :=
  match r with
  | Grp _ => true
  | Opt r1 => has_group r1
  | Seq r1 r2 => has_group r1 || has_group r2
  | _ => false
  end.

(** Every match of the pattern leaves in group 1 the text of a repetition
    that reads at least one character. *)
Fixpoint group_filled (r : regex) : bool :=
  match r with
  | Grp (Rep _ min _) => 1 <=? min
  | Seq r1 r2 => group_filled r2 || (group_filled r1 && negb (has_group r2))
  | _ => false
  end.

(** An item a line may contribute, as a list of zero or one element. *)
Definition item_list (o : option str) : list str :=
  match o with Some item => [item] | None => [] end.

(** A character with which [line_tail] can begin: a comma, white space
    or a slash. *)
Definition tail_start (a : ascii) : bool :=
  Ascii.eqb ","%char a || Py.isspace a || Ascii.eqb "/"%char a.

(** No quote character of the text is directly followed by a character
    with which [line_tail] can begin. *)
Fixpoint quote_safe (s : str) : bool :=
  match s with
  | a :: s' =>
      match s' with
      | b :: _ => negb (cls_mem quotes a && tail_start b)
      | [] => true
      end && quote_safe s'
  | [] => true
  end.

(** What follows the closing quote of a literal on its line: a comma or
    not, white space, a line comment or not. *)
Definition trailer (comma : bool) (ws : str) (comment : option str) : str :=
  (if comma then lit_of "," else [])
  ++ ws
  ++ match comment with
     | Some text => lit_of "//" ++ text
     | None => []
     end.

Definition no_newline (s : str) : bool := forallb (cls_mem Dot) s.

Definition comment_ok (comment : option str) : bool :=
  match comment with Some text => no_newline text | None => true end.

(** The offsets of [s] at which the text [p] starts. *)
Fixpoint offsets_from (p : str) (i : nat) (s : str) : list nat :=
  (if Py.startswith p s then [i] else [])
  ++ match s with
     | [] => []
     | _ :: s' => offsets_from p (S i) s'
     end.

Definition offsets (p s : str) : list nat := offsets_from p 0 s.

Definition str_eq_dec : forall a b : str, {a = b} + {a <> b} :=
  list_eq_dec ascii_dec.

(** The buckets filled from a function of the bucket name. *)
Definition buckets (f : str -> list str) : dict (list str) :=
  map (fun name => (name, f name)) bucket_names.

(** The selectors of a sequence that belong to a bucket, in their order. *)
Definition members (selectors : list str) (name : str) : list str :=
  filter (fun selector => str_eqb name (bucket_of selector)) selectors.

(** Some keyword of the list occurs in the text. *)
Definition keyword_in (keywords : list str) (text : str) : Prop :=
  exists kw, In kw keywords /\ substring kw text.

(** A run of [n] characters of the class [c], after which the
    continuation [k] gives [res]. *)
Definition stops_at (c : cls) (k : cont) (min p : nat) (s : str)
           (g : option str) (res : mstate) (n : nat) : Prop :=
  min <= n /\ n <= length s /\
  forallb (cls_mem c) (firstn n s) = true /\
  k (MState (p + n) (skipn n s) g) = Some res.

(** The text after a greedy repetition does not go on in the class. *)
Definition stops (c : cls) (s : str) : bool :=
  match s with
  | [] => true
  | x :: _ => negb (cls_mem c x)
  end.

Definition not_bracket (a : ascii) : bool := negb (Ascii.eqb "]"%char a).

(** No string is listed twice. *)
Fixpoint distinct (l : list str) : bool :=
  match l with
  | [] => true
  | x :: l' => negb (existsb (str_eqb x) l') && distinct l'
  end.

(** The order of the keyword table. *)
Definition category_order : list str :=
  [ "ads" : str; "navigation" : str; "header_footer" : str; "sidebar" : str;
    "social" : str; "comments" : str; "auth" : str; "newsletter" : str;
    "article_meta" : str; "post_meta" : str; "author" : str;
    "related" : str ].

(** The paths of the sequence fields of the manifest other than
    [content_selectors.selectors]. *)
Definition other_sequence_fields : list (list str) :=
  [ [ "remove" : str; "exact_selectors" : str ];
    [ "remove" : str; "partial_patterns" : str; "check_attributes" : str ];
    [ "preserve" : str; "block_elements" : str ];
    [ "preserve" : str; "preserve_elements" : str ];
    [ "preserve" : str; "inline_elements" : str ];
    [ "preserve" : str; "allowed_empty" : str ];
    [ "preserve" : str; "allowed_attributes" : str ];
    [ "footnotes" : str; "inline_references" : str ];
    [ "footnotes" : str; "list_selectors" : str ];
    [ "scoring" : str; "content_indicators" : str ];
    [ "scoring" : str; "navigation_indicators" : str ];
    [ "scoring" : str; "non_content_patterns" : str ] ].

(** Concrete texts, paths and disks for the examples. *)
Module Examples.

(** The one-declaration document. *)
Definition entry_decl : str :=
  "export const ENTRY_POINT_ELEMENTS = ['article', 'main'];".

Definition entry_body : str := "'article', 'main'".

(** A body with a line break inside and four single quotes. *)
Definition two_items_body : str := ("'a', 'b'" ++ NL ++ "z")%string.

Definition two_items_doc : str :=
  ("export const X = ['a', 'b'" ++ NL ++ "z];")%string.

(** The line of the multi-line example. *)
Definition role_line : str :=
  ("'[role=" ++ DQ ++ "article" ++ DQ ++ "]',  // comment")%string.

Definition role_inner : str :=
  ("[role=" ++ DQ ++ "article" ++ DQ ++ "]")%string.

(** A double-quoted literal with a single quote and a comment mark
    inside. *)
Definition cut_inner : str := "a' //b".
Definition cut_line : str := (DQ ++ "a' //b" ++ DQ)%string.

(** A two-line array whose first item is that literal. *)
Definition cut_doc : str :=
  ("export const X = [" ++ NL ++ "  " ++ DQ ++ "a' //b" ++ DQ ++ "," ++ NL
   ++ "  'c'" ++ NL ++ "];")%string.

(** A single-quoted selector with double quotes and a comment mark
    inside, the line that holds it, and an array that holds it, written
    on three lines and on one. *)
Definition link_inner : str :=
  ("a[href*=" ++ DQ ++ "//twitter.com" ++ DQ ++ "]")%string.

Definition link_line : str :=
  ("  'a[href*=" ++ DQ ++ "//twitter.com" ++ DQ ++ "]',")%string.

Definition link_doc : str :=
  ("export const X = [" ++ NL
   ++ "  'a[href*=" ++ DQ ++ "//twitter.com" ++ DQ ++ "]'," ++ NL
   ++ "  'b'" ++ NL ++ "];")%string.

Definition link_doc_one_line : str :=
  ("export const X = ['a[href*=" ++ DQ ++ "//twitter.com" ++ DQ
   ++ "]', 'b'];")%string.

(** Paths as plain text; the sibling of a path is named after its
    directory part. *)
Fixpoint dir_part (p : str) : str :=
  match p with
  | [] => []
  | a :: p' =>
      if Py.contains (lit_of "/") p then a :: dir_part p' else []
  end.

Definition sibling (p name : str) : str := dir_part p ++ name.

Definition here (s : str) : str := s.

(** A disk with one entry. *)
Definition one_entry (p : str) (e : entry) : str -> option entry :=
  fun q => if str_eqb q p then Some e else None.

Definition constants_ts : str := "src/constants.ts".

Definition argv1 : list str := [ "extract.py" : str; constants_ts ].

Definition header : str := ("// patterns" ++ NL)%string.
Definition footer : str := NL.

End Examples.

(* ================================================================== *)
(** ** Further vocabulary                                               *)
(* ================================================================== *)

(** [t] is what is left of [s] after some of its beginning. *)
Definition suffix_of (t s : str) : Prop := exists a, s = a ++ t.

(** Further texts for the examples. *)
Module MoreExamples.

(** An array of two items on one line, in the simple form. *)
Definition one_line_simple : str := "const xs = ['a', 'b'];".

(** A bracket declaration with an attribute selector in its body, a
    line break before the bracket and a join call after it, followed by
    a second declaration of the same name. *)
Definition sel_pre : str := ("// x" ++ NL)%string.
Definition sel_ws2 : str := (NL ++ "  ")%string.
Definition sel_body : str :=
  ("'[role=" ++ DQ ++ "a" ++ DQ ++ "]', 'b'")%string.
Definition sel_item : str := ("[role=" ++ DQ ++ "a" ++ DQ ++ "]")%string.
Definition sel_post : str := (NL ++ "export const SEL = ['z'];")%string.

(** A Set declaration over several lines, and one in the simple form. *)
Definition tags_body : str :=
  (NL ++ "  'a', // first" ++ NL ++ "  " ++ DQ ++ "b[0]" ++ DQ ++ NL)%string.
Definition tags_post : str :=
  (";" ++ NL ++ "export const TAGS = new Set(['z']);")%string.

Definition xs_body : str :=
  (NL ++ "  'x[1]'," ++ NL ++ NL ++ "  // c" ++ NL ++ "  " ++ DQ ++ "y" ++ DQ
   ++ "," ++ NL)%string.
Definition xs_post : str := (NL ++ "const xs = ['q'];")%string.

(** Three single-quoted items over two lines, and three double-quoted
    items on one line. *)
Definition abc_lead : str := (NL ++ "  ")%string.
Definition abc_items : list (str * str) :=
  [ (lit_of "a", lit_of ", ");
    (lit_of "b", lit_of ("," ++ NL ++ "  "));
    (lit_of "c", lit_of NL) ].
Definition uvw_items : list (str * str) :=
  [ (lit_of "u", lit_of ", ");
    (lit_of "v w", lit_of ",");
    (lit_of "x", lit_of " ") ].

End MoreExamples.
Import MoreExamples.

(** No closing bracket of the text is directly followed by a character
    of the set [closer]: no bracket inside the text can be taken for the
    end of the array. *)
Fixpoint bracket_safe (closer : ascii -> bool) (s : str) : bool :=
  match s with
  | a :: s' =>
      match s' with
      | b :: _ => negb (Ascii.eqb "]"%char a && closer b)
      | [] => true
      end && bracket_safe closer s'
  | [] => true
  end.

(** What can follow the closing bracket in the three forms: [;] or the
    dot of a join call; [)]; [;]. *)
Definition array_closer (a : ascii) : bool :=
  Ascii.eqb ";"%char a || Ascii.eqb "."%char a.
Definition set_closer (a : ascii) : bool := Ascii.eqb ")"%char a.
Definition simple_closer (a : ascii) : bool := Ascii.eqb ";"%char a.

(** The text of a join call after the closing bracket, or nothing: the
    two quote characters and whether a comma stands between them. *)
Definition join_call (call : option (ascii * bool * ascii)) : str :=
  match call with
  | None => []
  | Some (q1, comma, q2) =>
      lit_of ".join(" ++ [q1] ++ (if comma then lit_of "," else [])
      ++ [q2] ++ lit_of ")"
  end.

Definition join_ok (call : option (ascii * bool * ascii)) : bool :=
  match call with
  | None => true
  | Some (q1, _, q2) => cls_mem quotes q1 && cls_mem quotes q2
  end.

(** The text of a declaration in the bracket form, from [export] to the
    semicolon. *)
Definition bracket_decl (name ws1 ws2 body : str)
           (call : option (ascii * bool * ascii)) : str :=
  lit_of "export const " ++ name ++ ws1 ++ lit_of "=" ++ ws2
  ++ lit_of "[" ++ body ++ lit_of "]" ++ join_call call ++ lit_of ";".

(** The same in the Set form, to the closing parenthesis. *)
Definition set_decl (name ws1 ws2 body : str) : str :=
  lit_of "export const " ++ name ++ ws1 ++ lit_of "=" ++ ws2
  ++ lit_of "new Set([" ++ body ++ lit_of "])".

(** The same in the simple form, from [const] to the semicolon. *)
Definition simple_decl (name ws1 ws2 body : str) : str :=
  lit_of "const " ++ name ++ ws1 ++ lit_of "=" ++ ws2
  ++ lit_of "[" ++ body ++ lit_of "];".

(** Wherever the text [p] starts in [s], a letter, a digit or an
    underscore follows it, or [s] ends: [p] is only the beginning of a
    longer word there. *)
Definition continued (p s : str) : bool :=
  forallb (fun i => match skipn (i + length p) s with
                    | c :: _ => word_char c
                    | [] => true
                    end)
          (offsets p s).

(** The pattern of a literal in quotes [q]; [single_quoted] and
    [double_quoted] are its two instances. *)
Definition quoted (q : ascii) : regex :=
  Seq (Lit [q]) (Seq (Grp (Rep (NoneOf [q]) 1 true)) (Lit [q])).

(** The character [q] does not occur in [s]. *)
Definition free_of (q : ascii) (s : str) : bool :=
  forallb (fun a => negb (Ascii.eqb a q)) s.

(** A body written as literals in quotes [q]: some text, then each item
    between quotes and the text after it. *)
Definition render_items (q : ascii) (lead : str) (items : list (str * str))
  : str :=
  lead ++ flat_map (fun it => q :: fst it ++ q :: snd it) items.

(** The items are not empty, and neither they nor the texts between them
    hold the quote character. *)
Definition items_ok (q : ascii) (items : list (str * str)) : bool :=
  forallb (fun it => nonempty (fst it) && free_of q (fst it)
                     && free_of q (snd it)) items.

(** A line of a multi-line body as it is written: a literal with what
    surrounds it (see [trailer]), or a line that is blank or a comment. *)
Inductive body_line : Type :=
| LiteralLine (indent : str) (q1 : ascii) (inner : str) (q2 : ascii)
              (comma : bool) (ws : str) (comment : option str)
| OtherLine (text : str).

Definition render_line (l : body_line) : str :=
  match l with
  | LiteralLine indent q1 inner q2 comma ws comment =>
      indent ++ q1 :: inner ++ q2 :: trailer comma ws comment
  | OtherLine text => text
  end.

Definition contributed (l : body_line) : list str :=
  match l with
  | LiteralLine _ _ inner _ _ _ _ => [inner]
  | OtherLine _ => []
  end.

(** The line is well formed and holds no line break. *)
Definition line_ok (l : body_line) : bool :=
  match l with
  | LiteralLine indent q1 inner q2 comma ws comment =>
      forallb Py.isspace indent && no_newline indent
      && cls_mem quotes q1 && cls_mem quotes q2
      && nonempty inner && no_newline inner && quote_safe (tl inner)
      && forallb Py.isspace ws && no_newline ws && comment_ok comment
  | OtherLine text =>
      no_newline text
      && (negb (nonempty (Py.strip text))
          || Py.startswith (lit_of "//") (Py.strip text))
  end.

Module LineExamples.

(** The lines of a body: two literals, a blank line and a comment. *)
Definition xs_lines : list body_line :=
  [ OtherLine [];
    LiteralLine (lit_of "  ") squote (lit_of "x[1]") squote true [] None;
    OtherLine [];
    OtherLine (lit_of "  // c");
    LiteralLine (lit_of "  ") dquote (lit_of "y") dquote true
                (lit_of " ") (Some (lit_of " last"));
    OtherLine [] ].

End LineExamples.
Import LineExamples.

(** [d.get(name, [])] on the result of the categorizer. *)
Fixpoint bucket (d : dict (list str)) (name : str) : list str :=
  match d with
  | [] => []
  | (k, v) :: d' => if str_eqb k name then v else bucket d' name
  end.

(** Keywords of later categories in which [ad], the first keyword of
    the first category, occurs. *)
Definition ad_keywords : list str :=
  words ["breadcrumb"; "header"; "masthead"; "read-next"; "keep-reading"].

(** A printable ASCII character or a line break. *)
Definition printable (a : ascii) : bool :=
  ((32 <=? Py.code a) && (Py.code a <=? 126)) || Ascii.eqb a newline.

Definition all_printable (s : str) : bool := forallb printable s.

(* ================================================================== *)
(** ** Facts about the string operations                                *)
(* ================================================================== *)

Module PyFacts.

Lemma startswith_app p s : Py.startswith p (p ++ s) = true.
Proof.
  induction p as [|a p IH]; simpl; [reflexivity|].
  now rewrite Ascii.eqb_refl.
Qed.

Lemma startswith_split p s :
  Py.startswith p s = true -> s = p ++ skipn (length p) s.
Proof.
  revert s; induction p as [|a p IH]; intros [|b s] H; simpl in *;
    try reflexivity; try discriminate.
  apply andb_true_iff in H as [Hab Hp].
  apply Ascii.eqb_eq in Hab; subst b.
  f_equal; now apply IH.
Qed.

Lemma startswith_iff p s :
  Py.startswith p s = true <-> exists b, s = p ++ b.
Proof.
  split.
  - intros H; eexists; now apply startswith_split.
  - intros [b ->]; apply startswith_app.
Qed.

(** A longer literal starts where its beginning does. *)
Lemma startswith_app_l p q s :
  Py.startswith p s = false -> Py.startswith (p ++ q) s = false.
Proof.
  intros H. destruct (Py.startswith (p ++ q) s) eqn:E; [|reflexivity].
  apply startswith_iff in E as [b ->].
  rewrite <- app_assoc, startswith_app in H; discriminate.
Qed.

Lemma contains_here p s :
  Py.startswith p s = true -> Py.contains p s = true.
Proof. destruct s; simpl; intros ->; reflexivity. Qed.

Lemma contains_iff p s : Py.contains p s = true <-> substring p s.
Proof.
  unfold substring; split.
  - induction s as [|c s IH]; simpl; intros H.
    + rewrite orb_false_r in H. apply startswith_iff in H as [b Hb].
      exists [], b; exact Hb.
    + apply orb_true_iff in H as [H|H].
      * apply startswith_iff in H as [b Hb]. exists [], b; exact Hb.
      * destruct (IH H) as (a & b & ->). exists (c :: a), b; reflexivity.
  - intros (a & b & ->). induction a as [|c a IH]; simpl.
    + apply contains_here, startswith_app.
    + rewrite IH; apply orb_true_r.
Qed.

Lemma contains_false_iff p s : Py.contains p s = false <-> ~ substring p s.
Proof.
  rewrite <- contains_iff. destruct (Py.contains p s); split; intro H;
    try reflexivity; try discriminate; try tauto.
Qed.

Lemma str_eqb_eq a b : str_eqb a b = true <-> a = b.
Proof.
  revert b; induction a as [|x a IH]; intros [|y b]; simpl;
    try (split; [reflexivity || discriminate | reflexivity || discriminate]).
  rewrite andb_true_iff, Ascii.eqb_eq, IH.
  split; [intros [-> ->]; reflexivity | intros [= -> ->]; auto].
Qed.

Lemma str_eqb_refl a : str_eqb a a = true.
Proof. now apply str_eqb_eq. Qed.

Lemma str_eqb_neq a b : str_eqb a b = false <-> a <> b.
Proof.
  rewrite <- str_eqb_eq. destruct (str_eqb a b); split; intro H;
    try reflexivity; try discriminate; try tauto.
Qed.

End PyFacts.

(* ================================================================== *)
(** ** The matcher against [matches]                                    *)
(* ================================================================== *)

Module ReFacts.

Lemma orelse_some a b res :
  orelse a b = Some res -> a = Some res \/ (a = None /\ b = Some res).
Proof. destruct a; simpl; auto. Qed.

Lemma mstate_add_0 p s g : MState (p + 0) s g = MState p s g.
Proof. now rewrite Nat.add_0_r. Qed.

Lemma mstate_add_S p n s g : MState (S p + n) s g = MState (p + S n) s g.
Proof. now rewrite Nat.add_succ_r. Qed.

Section Repetition.

Variable c : cls.
Variable k : cont.

Lemma stops_at_0 p s g res :
  k (MState p s g) = Some res -> stops_at c k 0 p s g res 0.
Proof.
  intros H; repeat split; simpl; try lia. now rewrite mstate_add_0.
Qed.

Lemma stops_at_S min p a s g res n :
  cls_mem c a = true ->
  stops_at c k (Nat.pred min) (S p) s g res n ->
  stops_at c k min p (a :: s) g res (S n).
Proof.
  intros Ha (Hmin & Hlen & Hall & Hk); repeat split; simpl; try lia.
  - now rewrite Ha.
  - now rewrite <- mstate_add_S.
Qed.

Lemma rep_greedy_sound s : forall min p g res,
  rep_greedy c min k p s g = Some res ->
  exists n, stops_at c k min p s g res n.
Proof.
  induction s as [|a s IH]; intros min p g res; simpl.
  - destruct (Nat.eqb_spec min 0) as [->|]; [|discriminate].
    intros H; exists 0; now apply stops_at_0.
  - destruct (cls_mem c a) eqn:Ha.
    + intros H; apply orelse_some in H as [H|[_ H]].
      * destruct (IH _ _ _ _ H) as [n Hn].
        exists (S n); now apply stops_at_S.
      * destruct (Nat.eqb_spec min 0) as [->|]; [|discriminate].
        exists 0; now apply stops_at_0.
    + destruct (Nat.eqb_spec min 0) as [->|]; [|discriminate].
      intros H; exists 0; now apply stops_at_0.
Qed.

Lemma rep_lazy_sound s : forall min p g res,
  rep_lazy c min k p s g = Some res ->
  exists n, stops_at c k min p s g res n.
Proof.
  induction s as [|a s IH]; intros min p g res; simpl.
  - destruct (Nat.eqb_spec min 0) as [->|]; [|discriminate].
    intros H; apply orelse_some in H as [H|[_ H]]; [|discriminate].
    exists 0; now apply stops_at_0.
  - assert (Hmore : (if cls_mem c a
                     then rep_lazy c (Nat.pred min) k (S p) s g
                     else None) = Some res ->
                    exists n, stops_at c k min p (a :: s) g res n).
    { destruct (cls_mem c a) eqn:Ha; [|discriminate].
      intros H; destruct (IH _ _ _ _ H) as [n Hn].
      exists (S n); now apply stops_at_S. }
    destruct (Nat.eqb_spec min 0) as [->|]; [|exact Hmore].
    intros H; apply orelse_some in H as [H|[_ H]]; [|now apply Hmore].
    exists 0; now apply stops_at_0.
Qed.

Lemma rep_greedy_complete s : forall n min p g res,
  stops_at c k min p s g res n ->
  exists res', rep_greedy c min k p s g = Some res'.
Proof.
  induction s as [|a s IH]; intros n min p g res (Hmin & Hlen & Hall & Hk).
  - simpl in Hlen. assert (n = 0) by lia; subst n.
    assert (min = 0) by lia; subst min.
    rewrite mstate_add_0 in Hk; simpl in Hk. simpl; eauto.
  - destruct n as [|n].
    + assert (min = 0) by lia; subst min.
      rewrite mstate_add_0 in Hk; simpl in Hk. simpl; rewrite Hk.
      destruct (cls_mem c a); [|eauto].
      destruct (rep_greedy c 0 k (S p) s g); simpl; eauto.
    + simpl in Hall, Hk, Hlen. apply andb_true_iff in Hall as [Ha Hall].
      simpl; rewrite Ha.
      destruct (IH n (Nat.pred min) (S p) g res) as [res' Hres'].
      { repeat split; try lia; [exact Hall|].
        now rewrite mstate_add_S. }
      rewrite Hres'; simpl; eauto.
Qed.

Lemma rep_lazy_complete s : forall n min p g res,
  stops_at c k min p s g res n ->
  exists res', rep_lazy c min k p s g = Some res'.
Proof.
  induction s as [|a s IH]; intros n min p g res (Hmin & Hlen & Hall & Hk).
  - simpl in Hlen. assert (n = 0) by lia; subst n.
    assert (min = 0) by lia; subst min.
    rewrite mstate_add_0 in Hk; simpl in Hk.
    simpl; rewrite Hk; simpl; eauto.
  - destruct n as [|n].
    + assert (min = 0) by lia; subst min.
      rewrite mstate_add_0 in Hk; simpl in Hk.
      simpl; rewrite Hk; simpl; eauto.
    + simpl in Hall, Hk, Hlen. apply andb_true_iff in Hall as [Ha Hall].
      simpl; rewrite Ha.
      destruct (IH n (Nat.pred min) (S p) g res) as [res' Hres'].
      { repeat split; try lia; [exact Hall|].
        now rewrite mstate_add_S. }
      rewrite Hres'.
      destruct (min =? 0); [|eauto].
      destruct (k (MState p (a :: s) g)); simpl; eauto.
Qed.

End Repetition.

(** Whatever the matcher returns went through a match of the pattern. *)
Theorem run_sound r : forall k st res,
  run r k st = Some res ->
  exists st', matches r st st' /\ k st' = Some res.
Proof.
  induction r as [l|c|c min greedy|r IH|r1 IH1 r2 IH2|r IH| |];
    intros k st res; simpl.
  - destruct (Py.startswith l (rest st)) eqn:E; [|discriminate].
    intros H; eexists; split; [now apply m_lit | exact H].
  - destruct (rest st) as [|a s] eqn:E; [discriminate|].
    destruct (cls_mem c a) eqn:Ha; [|discriminate].
    intros H; eexists; split; [eapply m_cls; eauto | exact H].
  - intros H.
    assert (exists n, stops_at c k min (pos st) (rest st) (grp st) res n)
      as (n & Hmin & Hlen & Hall & Hk).
    { destruct greedy;
        [eapply rep_greedy_sound | eapply rep_lazy_sound]; eauto. }
    exists (advance n st); split; [now apply m_rep | exact Hk].
  - intros H; apply orelse_some in H as [H|[_ H]].
    + destruct (IH _ _ _ H) as (st' & Hm & Hk).
      exists st'; split; [now apply m_opt_some | exact Hk].
    + exists st; split; [apply m_opt_none | exact H].
  - intros H. destruct (IH1 _ _ _ H) as (st1 & Hm1 & H1).
    destruct (IH2 _ _ _ H1) as (st2 & Hm2 & H2).
    exists st2; split; [eapply m_seq; eauto | exact H2].
  - intros H. destruct (IH _ _ _ H) as (st' & Hm & Hk).
    eexists; split; [apply m_grp; exact Hm | exact Hk].
  - destruct (Nat.eqb_spec (pos st) 0) as [E|]; [|discriminate].
    intros H; exists st; split; [now apply m_bos | exact H].
  - destruct (rest st) as [|a [|b s]] eqn:E; try discriminate.
    + intros H; exists st; split; [apply m_eos; now left | exact H].
    + destruct (Ascii.eqb_spec a newline) as [->|]; [|discriminate].
      intros H; exists st; split; [apply m_eos; now right | exact H].
Qed.

(** Where the pattern has a match that the continuation accepts, the
    matcher finds one. *)
Theorem run_complete r st st' :
  matches r st st' ->
  forall k res, k st' = Some res -> exists res', run r k st = Some res'.
Proof.
  induction 1 as [l st Hl|c a s st Hr Ha|c min greedy n st Hmin Hlen Hall
                 |r st st' Hm IH|r st|r1 r2 st st1 st2 Hm1 IH1 Hm2 IH2
                 |r st st' Hm IH|st Hp|st He];
    intros k res Hk; simpl.
  - rewrite Hl; eauto.
  - rewrite Hr, Ha; eauto.
  - assert (Hs : stops_at c k min (pos st) (rest st) (grp st) res n)
      by (repeat split; assumption).
    destruct greedy;
      [eapply rep_greedy_complete | eapply rep_lazy_complete]; eauto.
  - destruct (IH _ _ Hk) as [res' ->]; simpl; eauto.
  - rewrite Hk. destruct (run r k st); simpl; eauto.
  - destruct (IH2 _ _ Hk) as [res2 H2].
    exact (IH1 _ _ H2).
  - exact (IH (fun st'0 =>
                 k (set_grp (firstn (pos st'0 - pos st) (rest st)) st'0))
              res Hk).
  - rewrite Hp; simpl; eauto.
  - destruct He as [-> | ->]; simpl; eauto.
Qed.

Lemma match_at_sound r p s res :
  match_at r p s = Some res -> matches r (MState p s None) res.
Proof.
  unfold match_at; intros H.
  destruct (run_sound _ _ _ H) as (st' & Hm & [= ->]); exact Hm.
Qed.

Lemma match_at_complete r p s st' :
  matches r (MState p s None) st' -> exists res, match_at r p s = Some res.
Proof. intros H; exact (run_complete H Some eq_refl). Qed.

Lemma search_from_sound r s : forall p res,
  search_from r p s = Some res ->
  exists i, i <= length s /\ matches r (MState (p + i) (skipn i s) None) res.
Proof.
  induction s as [|a s IH]; intros p res; simpl.
  - destruct (match_at r p []) eqn:E; [|discriminate].
    intros [= ->]; exists 0; split; [lia|].
    rewrite mstate_add_0; now apply match_at_sound.
  - destruct (match_at r p (a :: s)) eqn:E.
    + intros [= ->]; exists 0; split; [lia|].
      rewrite mstate_add_0; now apply match_at_sound.
    + intros H; destruct (IH _ _ H) as (i & Hi & Hm).
      exists (S i); split; [lia|]. now rewrite <- mstate_add_S.
Qed.

Lemma search_from_complete r s : forall i p st',
  i <= length s ->
  matches r (MState (p + i) (skipn i s) None) st' ->
  exists res, search_from r p s = Some res.
Proof.
  induction s as [|a s IH]; intros i p st' Hi Hm.
  - simpl in Hi; assert (i = 0) by lia; subst i.
    simpl in *. rewrite mstate_add_0 in Hm.
    destruct (match_at_complete Hm) as [res ->]; eauto.
  - simpl. destruct (match_at r p (a :: s)) eqn:E; [eauto|].
    destruct i as [|i].
    + simpl in Hm. rewrite mstate_add_0 in Hm.
      destruct (match_at_complete Hm) as [res Hres]; congruence.
    + simpl in Hm, Hi. rewrite <- mstate_add_S in Hm.
      apply (@IH i (S p) st'); [lia | exact Hm].
Qed.

(** [re.search] finds nothing exactly when the pattern matches nowhere. *)
Theorem re_search_none r s : re_search r s = None <-> ~ occurs r s.
Proof.
  unfold re_search, occurs; split.
  - intros H (i & st' & Hi & Hm).
    destruct (@search_from_complete r s i 0 st' Hi Hm) as [res Hres].
    congruence.
  - intros H. destruct (search_from r 0 s) eqn:E; [|reflexivity].
    elim H. destruct (search_from_sound _ _ _ E) as (i & Hi & Hm); eauto.
Qed.

Lemma re_search_some r s res :
  re_search r s = Some res ->
  exists i, matches r (MState i (skipn i s) None) res.
Proof.
  intros H; destruct (search_from_sound _ _ _ H) as (i & _ & Hm); eauto.
Qed.

Lemma findall_from_sound r s : forall skip p x,
  In x (findall_from r skip p s) ->
  exists st res, matches r st res /\ x = group1 res.
Proof.
  induction s as [|a s IH]; intros skip p x; simpl.
  - destruct skip; [|intros []].
    destruct (match_at r p []) eqn:E; [|intros []].
    intros [<-|[]]. apply match_at_sound in E; eauto.
  - destruct skip as [|n]; [|apply IH].
    destruct (match_at r p (a :: s)) eqn:E; [|apply IH].
    intros [<-|H]; [|exact (IH _ _ _ H)].
    apply match_at_sound in E; eauto.
Qed.

End ReFacts.

Module ExtractFacts.
Import ReFacts.

Lemma keeps_group r st st' :
  matches r st st' -> has_group r = false -> grp st' = grp st.
Proof.
  induction 1; simpl; intros Hg; try reflexivity; try discriminate; auto.
  apply orb_false_iff in Hg as [H1 H2].
  rewrite IHmatches2, IHmatches1; auto.
Qed.

Lemma fills_group r st st' :
  matches r st st' -> group_filled r = true ->
  exists x, grp st' = Some x /\ x <> [].
Proof.
  induction 1 as [| | |r st st' Hm IH| |r1 r2 st st1 st2 Hm1 IH1 Hm2 IH2
                 |r st st' Hm IH| |]; simpl; intros Hg; try discriminate.
  - apply orb_true_iff in Hg as [Hg|Hg]; [now apply IH2|].
    apply andb_true_iff in Hg as [Hg1 Hg2].
    apply negb_true_iff in Hg2.
    rewrite (keeps_group Hm2 Hg2); now apply IH1.
  - destruct r; try discriminate.
    inversion Hm; subst; simpl.
    eexists; split; [reflexivity|].
    replace (pos st + n - pos st) with n by lia.
    assert (1 <= min) by (destruct min; [discriminate | lia]).
    intros E. apply (f_equal (@length ascii)) in E.
    rewrite length_firstn in E. simpl in E. lia.
Qed.

Lemma filled_group1 r st res :
  matches r st res -> group_filled r = true -> group1 res <> [].
Proof.
  intros Hm Hg; destruct (fills_group Hm Hg) as (x & Hx & Hne).
  unfold group1; now rewrite Hx.
Qed.

Lemma findall_nonempty r s x :
  group_filled r = true -> In x (re_findall r s) -> x <> [].
Proof.
  intros Hg H. destruct (findall_from_sound _ _ _ _ _ H) as (st & res & Hm & ->).
  exact (filled_group1 Hm Hg).
Qed.

Lemma collect_lines_fold lines : forall items,
  fold_left
    (fun items line =>
       match line_item line with
       | Some item => items ++ [item]
       | None => items
       end) lines items
  = items ++ flat_map (fun line => item_list (line_item line)) lines.
Proof.
  induction lines as [|line lines IH]; intros items; simpl.
  - now rewrite app_nil_r.
  - rewrite IH. destruct (line_item line); simpl; [|reflexivity].
    now rewrite <- app_assoc.
Qed.

(** The loop as a comprehension: each line gives its item, in order. *)
Lemma collect_lines_eq body :
  collect_lines body
  = flat_map (fun line => item_list (line_item line))
             (Py.split newline body).
Proof. unfold collect_lines; now rewrite collect_lines_fold. Qed.

Lemma line_item_nonempty line x : line_item line = Some x -> x <> [].
Proof.
  unfold line_item.
  destruct (_ || _); [discriminate|].
  destruct (re_match line_pattern (Py.strip line)) eqn:E; [|discriminate].
  intros [= <-]. apply match_at_sound in E.
  exact (filled_group1 E eq_refl).
Qed.

Lemma collect_lines_nonempty body x : In x (collect_lines body) -> x <> [].
Proof.
  rewrite collect_lines_eq, in_flat_map. intros (line & _ & Hx).
  destruct (line_item line) eqn:E; simpl in Hx; [|contradiction].
  destruct Hx as [->|[]]. exact (line_item_nonempty _ E).
Qed.

Lemma array_items_nonempty body x : In x (array_items body) -> x <> [].
Proof.
  unfold array_items, single_line_items.
  destruct (single_line body); [|apply collect_lines_nonempty].
  destruct (re_findall single_quoted body) eqn:E.
  - now apply findall_nonempty.
  - rewrite <- E. now apply findall_nonempty.
Qed.

End ExtractFacts.

(* ================================================================== *)
(** ** Which match the matcher takes                                    *)
(* ================================================================== *)

Module ReSteps.
Import PyFacts.

Lemma skipn_length_app (A : Type) (a b : list A) :
  skipn (length a) (a ++ b) = b.
Proof. induction a; simpl; auto. Qed.

Lemma firstn_length_app (A : Type) (a b : list A) :
  firstn (length a) (a ++ b) = a.
Proof. induction a; simpl; congruence. Qed.

Lemma run_lit_app l k p s g :
  run (Lit l) k (MState p (l ++ s) g) = k (MState (p + length l) s g).
Proof.
  simpl. rewrite startswith_app. unfold advance; simpl.
  now rewrite skipn_length_app.
Qed.

Lemma matches_lit_app l p s g :
  matches (Lit l) (MState p (l ++ s) g) (MState (p + length l) s g).
Proof.
  replace (MState (p + length l) s g)
    with (advance (length l) (MState p (l ++ s) g))
    by (unfold advance; simpl; now rewrite skipn_length_app).
  apply m_lit. apply startswith_app.
Qed.

Lemma run_lit_fail l k st :
  Py.startswith l (rest st) = false -> run (Lit l) k st = None.
Proof. simpl; now intros ->. Qed.

Lemma run_cls_cons c k p a s g :
  cls_mem c a = true ->
  run (Cls c) k (MState p (a :: s) g) = k (MState (p + 1) s g).
Proof. simpl; now intros ->. Qed.

Lemma run_cls_fail c k p a s g :
  cls_mem c a = false -> run (Cls c) k (MState p (a :: s) g) = None.
Proof. simpl; now intros ->. Qed.

(** A greedy repetition takes the whole run of the class when the
    continuation accepts what comes after it. *)
Lemma rep_greedy_max c k a s g res : forall min p,
  forallb (cls_mem c) a = true -> stops c s = true -> min <= length a ->
  k (MState (p + length a) s g) = Some res ->
  rep_greedy c min k p (a ++ s) g = Some res.
Proof.
  induction a as [|x a IH]; intros min p Hall Hstop Hmin Hk.
  - simpl in Hmin. assert (min = 0) by lia; subst min.
    simpl in Hk; rewrite Nat.add_0_r in Hk.
    destruct s as [|y s]; simpl; [exact Hk|].
    simpl in Hstop. apply negb_true_iff in Hstop. now rewrite Hstop.
  - simpl in Hall. apply andb_true_iff in Hall as [Hx Hall].
    simpl. rewrite Hx.
    rewrite (IH (Nat.pred min) (S p)); simpl; auto.
    + simpl in Hmin; lia.
    + simpl in Hk. now rewrite Nat.add_succ_r in Hk.
Qed.

(** A lazy repetition stops at the first length at which the
    continuation accepts what comes after it. *)
Lemma rep_lazy_first c k s g res : forall a min p,
  forallb (cls_mem c) a = true -> min <= length a ->
  (forall a1 x a2, a = a1 ++ x :: a2 -> min <= length a1 ->
     k (MState (p + length a1) (x :: a2 ++ s) g) = None) ->
  k (MState (p + length a) s g) = Some res ->
  rep_lazy c min k p (a ++ s) g = Some res.
Proof.
  induction a as [|x a IH]; intros min p Hall Hmin Hfail Hk.
  - simpl in Hmin. assert (min = 0) by lia; subst min.
    simpl in Hk; rewrite Nat.add_0_r in Hk.
    destruct s; simpl; now rewrite Hk.
  - simpl in Hall. apply andb_true_iff in Hall as [Hx Hall].
    assert (Hrec : rep_lazy c (Nat.pred min) k (S p) (a ++ s) g = Some res).
    { apply IH; auto.
      - simpl in Hmin; lia.
      - intros a1 y a2 -> Hlen.
        specialize (Hfail (x :: a1) y a2 eq_refl).
        simpl in Hfail. rewrite Nat.add_succ_r in Hfail.
        apply Hfail. lia.
      - simpl in Hk. now rewrite Nat.add_succ_r in Hk. }
    simpl. rewrite Hx, Hrec.
    destruct (Nat.eqb_spec min 0) as [->|]; [|reflexivity].
    specialize (Hfail [] x a eq_refl). simpl in Hfail.
    rewrite Nat.add_0_r in Hfail. rewrite Hfail; [reflexivity | lia].
Qed.

Lemma run_bos k s g : run Bos k (MState 0 s g) = k (MState 0 s g).
Proof. reflexivity. Qed.

Lemma run_grp_lazy c min k p s g :
  run (Grp (Rep c min false)) k (MState p s g)
  = rep_lazy c min
      (fun st' => k (set_grp (firstn (pos st' - p) s) st')) p s g.
Proof. reflexivity. Qed.

Lemma run_rep_greedy c min k p s g :
  run (Rep c min true) k (MState p s g) = rep_greedy c min k p s g.
Proof. reflexivity. Qed.

Lemma run_opt_skip r k st :
  run r k st = None -> run (Opt r) k st = k st.
Proof. simpl; now intros ->. Qed.

Lemma run_seq r1 r2 k st : run (Seq r1 r2) k st = run r1 (run r2 k) st.
Proof. reflexivity. Qed.

(** A pattern that begins with a literal fails where the literal does
    not start. *)
Lemma lit_seq_fail l r k st :
  Py.startswith l (rest st) = false -> run (Seq (Lit l) r) k st = None.
Proof. simpl; now intros ->. Qed.

Lemma search_from_skip r s : forall n p,
  n <= length s ->
  (forall i, i < n -> match_at r (p + i) (skipn i s) = None) ->
  search_from r p s = search_from r (p + n) (skipn n s).
Proof.
  induction s as [|a s IH]; intros n p Hn Hfail.
  - simpl in Hn. assert (n = 0) by lia; subst n.
    now rewrite Nat.add_0_r.
  - destruct n as [|n]; [now rewrite Nat.add_0_r|].
    simpl. generalize (Hfail 0 ltac:(lia)); simpl.
    rewrite Nat.add_0_r; intros ->.
    rewrite (IH n (S p)).
    + now rewrite Nat.add_succ_r.
    + simpl in Hn; lia.
    + intros i Hi. specialize (Hfail (S i) ltac:(lia)).
      simpl in Hfail. now rewrite Nat.add_succ_r in Hfail.
Qed.

Lemma search_from_none r s : forall p,
  (forall i, i <= length s -> match_at r (p + i) (skipn i s) = None) ->
  search_from r p s = None.
Proof.
  induction s as [|a s IH]; intros p Hfail; simpl.
  - generalize (Hfail 0 ltac:(simpl; lia)); simpl.
    rewrite Nat.add_0_r; now intros ->.
  - generalize (Hfail 0 ltac:(simpl; lia)); simpl.
    rewrite Nat.add_0_r; intros ->.
    apply IH. intros i Hi. specialize (Hfail (S i) ltac:(simpl; lia)).
    simpl in Hfail. now rewrite Nat.add_succ_r in Hfail.
Qed.

Lemma offsets_from_spec p s : forall i0 i,
  In i (offsets_from p i0 s) <->
  exists j, i = i0 + j /\ j <= length s /\ Py.startswith p (skipn j s) = true.
Proof.
  induction s as [|a s IH]; intros i0 i; simpl; rewrite in_app_iff.
  - split.
    + intros [H|[]]. destruct (Py.startswith p []) eqn:E; [|destruct H].
      destruct H as [<-|[]]. exists 0; repeat split; auto.
    + intros (j & -> & Hj & H). assert (j = 0) by lia; subst j.
      simpl in H. rewrite H. left; left; lia.
  - rewrite IH. split.
    + intros [H|(j & -> & Hj & H)].
      * destruct (Py.startswith p (a :: s)) eqn:E; [|destruct H].
        destruct H as [<-|[]]. exists 0; repeat split; auto; lia.
      * exists (S j); repeat split; auto; lia.
    + intros ([|j] & -> & Hj & H).
      * simpl in H; rewrite H. left; left; lia.
      * right; exists j; repeat split; auto; lia.
Qed.

(** Outside the listed offsets the text does not start. *)
Lemma offsets_elsewhere p s i :
  i <= length s -> ~ In i (offsets p s) ->
  Py.startswith p (skipn i s) = false.
Proof.
  intros Hi Hnot. destruct (Py.startswith p (skipn i s)) eqn:E; auto.
  elim Hnot. apply offsets_from_spec. exists i; auto.
Qed.

End ReSteps.

(* ================================================================== *)
(** ** One line of a multi-line array                                   *)
(* ================================================================== *)

Module LineFacts.
Import PyFacts ReFacts ReSteps ExtractFacts.

#[local] Arguments Ascii.eqb : simpl never.
#[local] Arguments Py.isspace : simpl never.

Lemma lstrip_app_cons u x v :
  Py.isspace x = false -> Py.lstrip (u ++ x :: v) = Py.lstrip u ++ x :: v.
Proof.
  intros Hx; induction u as [|a u IH]; simpl.
  - now rewrite Hx.
  - destruct (Py.isspace a); [exact IH | reflexivity].
Qed.

Lemma lstrip_spaces u : forallb Py.isspace u = true -> Py.lstrip u = [].
Proof.
  induction u as [|a u IH]; simpl; [reflexivity|].
  intros H; apply andb_true_iff in H as [-> H]; auto.
Qed.

Lemma lstrip_spaces_app u v :
  forallb Py.isspace u = true -> Py.lstrip (u ++ v) = Py.lstrip v.
Proof.
  induction u as [|a u IH]; simpl; [reflexivity|].
  intros H; apply andb_true_iff in H as [-> H]; auto.
Qed.

Lemma forallb_rev (A : Type) (P : A -> bool) l :
  forallb P l = true -> forallb P (rev l) = true.
Proof.
  rewrite !forallb_forall. intros H x Hx. apply H. now apply in_rev.
Qed.

Lemma forallb_lstrip P u :
  forallb P u = true -> forallb P (Py.lstrip u) = true.
Proof.
  induction u as [|a u IH]; simpl; [reflexivity|].
  intros H. destruct (Py.isspace a); [|exact H].
  apply andb_true_iff in H as [_ H]; auto.
Qed.

Lemma forallb_rstrip P u :
  forallb P u = true -> forallb P (Py.rstrip u) = true.
Proof.
  intros H; unfold Py.rstrip.
  now apply forallb_rev, forallb_lstrip, forallb_rev.
Qed.

Lemma rstrip_app_cons a x b :
  Py.isspace x = false -> Py.rstrip (a ++ x :: b) = a ++ x :: Py.rstrip b.
Proof.
  intros Hx; unfold Py.rstrip.
  rewrite rev_app_distr; simpl. rewrite <- app_assoc; simpl.
  rewrite lstrip_app_cons by exact Hx.
  rewrite rev_app_distr; simpl. rewrite rev_involutive.
  now rewrite <- app_assoc.
Qed.

Lemma rstrip_spaces u : forallb Py.isspace u = true -> Py.rstrip u = [].
Proof.
  intros H; unfold Py.rstrip. now rewrite lstrip_spaces by now apply forallb_rev.
Qed.

(** Stripping a trailer leaves a trailer. *)
Lemma rstrip_trailer comma ws comment :
  forallb Py.isspace ws = true -> comment_ok comment = true ->
  exists ws' comment',
    Py.rstrip (trailer comma ws comment) = trailer comma ws' comment' /\
    forallb Py.isspace ws' = true /\ comment_ok comment' = true.
Proof.
  intros Hws Hc. destruct comment as [text|]; unfold trailer; simpl.
  - exists ws, (Some (Py.rstrip text)); repeat split; auto.
    + change (?c ++ ws ++ "/"%char :: "/"%char :: text)
        with (c ++ ws ++ ["/"%char] ++ "/"%char :: text).
      rewrite !app_assoc.
      rewrite rstrip_app_cons by reflexivity.
      now rewrite <- !app_assoc.
    + now apply forallb_rstrip.
  - exists [], None; repeat split; auto.
    rewrite app_nil_r. destruct comma; simpl.
    + change (","%char :: ws) with ([] ++ ","%char :: ws).
      rewrite rstrip_app_cons by reflexivity.
      now rewrite rstrip_spaces.
    + now rewrite rstrip_spaces.
Qed.

Lemma quote_not_space q : cls_mem quotes q = true -> Py.isspace q = false.
Proof.
  simpl; unfold mem; simpl.
  destruct (Ascii.eqb_spec q squote) as [->|]; [reflexivity|].
  destruct (Ascii.eqb_spec q dquote) as [->|]; [reflexivity|discriminate].
Qed.

Lemma quote_not_tail_start q :
  cls_mem quotes q = true -> tail_start q = false.
Proof.
  simpl; unfold mem; simpl.
  destruct (Ascii.eqb_spec q squote) as [->|]; [reflexivity|].
  destruct (Ascii.eqb_spec q dquote) as [->|]; [reflexivity|discriminate].
Qed.

Lemma quote_not_slash q s :
  cls_mem quotes q = true -> Py.startswith (lit_of "//") (q :: s) = false.
Proof.
  simpl; unfold mem; simpl.
  destruct (Ascii.eqb_spec q squote) as [->|]; [reflexivity|].
  destruct (Ascii.eqb_spec q dquote) as [->|]; [reflexivity|discriminate].
Qed.

(** [line_tail] cannot begin with any other character. *)
Lemma line_tail_fail k p y s g :
  tail_start y = false -> run line_tail k (MState p (y :: s) g) = None.
Proof.
  unfold tail_start. intros H.
  apply orb_false_iff in H as [H Hslash].
  apply orb_false_iff in H as [Hcomma Hspace].
  unfold line_tail. simpl. rewrite Hcomma, Hspace, Hslash. simpl.
  destruct s; [|reflexivity].
  destruct (Ascii.eqb_spec y newline) as [->|]; [discriminate|reflexivity].
Qed.

(** [line_tail] matches a trailer to its end. *)
Lemma line_tail_matches comma ws comment p g :
  forallb Py.isspace ws = true -> comment_ok comment = true ->
  exists st', matches line_tail (MState p (trailer comma ws comment) g) st'.
Proof.
  intros Hws Hc. unfold line_tail, trailer.
  assert (Hrest : forall p',
    exists st', matches
      (Seq (Rep Space 0 true)
         (Seq (Opt (Seq (Lit (lit_of "//")) (Rep Dot 0 true))) Eos))
      (MState p' (ws ++ match comment with
                        | Some text => lit_of "//" ++ text
                        | None => []
                        end) g) st').
  { intros p'.
    assert (Hrep : forall tl,
      matches (Rep Space 0 true) (MState p' (ws ++ tl) g)
              (MState (p' + length ws) tl g)).
    { intros tl.
      replace (MState (p' + length ws) tl g)
        with (advance (length ws) (MState p' (ws ++ tl) g))
        by (unfold advance; simpl; now rewrite skipn_length_app).
      apply m_rep; simpl; [lia| |].
      - rewrite length_app; lia.
      - now rewrite firstn_length_app. }
    destruct comment as [text|]; eexists;
      (eapply m_seq; [apply Hrep|]).
    - eapply m_seq.
      + apply m_opt_some. eapply m_seq.
        * apply m_lit. reflexivity.
        * apply (@m_rep Dot 0 true (length text)); simpl; [lia|lia|].
          rewrite firstn_all. exact Hc.
      + apply m_eos. left. simpl. now rewrite skipn_all.
    - eapply m_seq; [apply m_opt_none | apply m_eos; now left]. }
  destruct comma.
  - destruct (Hrest (p + 1)) as [st' Hst']. exists st'.
    eapply m_seq; [|exact Hst'].
    apply m_opt_some. apply (matches_lit_app (lit_of ",")).
  - destruct (Hrest p) as [st' Hst']. exists st'.
    eapply m_seq; [apply m_opt_none | exact Hst'].
Qed.

Lemma quote_safe_split u x y v :
  quote_safe (u ++ x :: y :: v) = true -> cls_mem quotes x = true ->
  tail_start y = false.
Proof.
  induction u as [|a u IH]; intros H Hx.
  - simpl in H. apply andb_true_iff in H as [H _].
    apply negb_true_iff in H. unfold quotes in *. simpl in Hx.
    rewrite Hx in H. exact H.
  - apply IH; [|exact Hx].
    change ((a :: u) ++ x :: y :: v) with (a :: (u ++ x :: y :: v)) in H.
    simpl in H. apply andb_true_iff in H as [_ H]. exact H.
Qed.

Lemma line_tail_runs comma ws comment p g :
  forallb Py.isspace ws = true -> comment_ok comment = true ->
  exists res,
    run line_tail Some (MState p (trailer comma ws comment) g) = Some res
    /\ grp res = g.
Proof.
  intros Hws Hc.
  destruct (line_tail_matches comma ws comment p g Hws Hc) as [st' Hm].
  destruct (run_complete Hm Some eq_refl) as [res Hres].
  exists res; split; [exact Hres|].
  destruct (run_sound _ _ _ Hres) as (st'' & Hm' & [= ->]).
  exact (keeps_group Hm' eq_refl).
Qed.

(** The whole-line pattern on a quoted literal and its trailer. *)
Lemma line_pattern_capture q1 inner q2 comma ws comment :
  cls_mem quotes q1 = true -> cls_mem quotes q2 = true ->
  inner <> [] -> no_newline inner = true ->
  quote_safe (tl inner) = true ->
  forallb Py.isspace ws = true -> comment_ok comment = true ->
  exists res,
    re_match line_pattern (q1 :: inner ++ q2 :: trailer comma ws comment)
    = Some res /\ group1 res = inner.
Proof.
  intros Hq1 Hq2 Hne Hnl Hsafe Hws Hc.
  unfold re_match, match_at, line_pattern.
  rewrite run_seq, run_bos, run_seq, run_cls_cons by exact Hq1.
  rewrite run_seq, run_grp_lazy.
  destruct (line_tail_runs comma ws comment (0 + 1 + length inner + 1)
              (Some inner) Hws Hc) as (res & Hres & Hg).
  exists res; split; [|unfold group1; now rewrite Hg].
  apply rep_lazy_first.
  - exact Hnl.
  - destruct inner; [congruence | simpl; lia].
  - intros a1 x a2 Hsplit Hlen. unfold set_grp; cbn [pos rest grp].
    rewrite run_seq.
    destruct (cls_mem quotes x) eqn:Hx; [|now rewrite run_cls_fail].
    rewrite run_cls_cons by exact Hx.
    destruct a2 as [|y a2]; simpl app; apply line_tail_fail.
    + now apply quote_not_tail_start.
    + destruct a1 as [|c a1]; [simpl in Hlen; lia|].
      subst inner. simpl in Hsafe.
      exact (quote_safe_split a1 x y a2 Hsafe Hx).
  - unfold set_grp; cbn [pos rest grp].
    replace (0 + 1 + length inner - (0 + 1)) with (length inner) by lia.
    rewrite firstn_length_app, run_seq, run_cls_cons by exact Hq2.
    exact Hres.
Qed.

Lemma strip_literal_line indent q1 body q2 t :
  forallb Py.isspace indent = true ->
  cls_mem quotes q1 = true -> cls_mem quotes q2 = true ->
  Py.strip (indent ++ q1 :: body ++ q2 :: t)
  = q1 :: body ++ q2 :: Py.rstrip t.
Proof.
  intros Hi Hq1 Hq2. unfold Py.strip.
  rewrite lstrip_spaces_app by exact Hi.
  simpl Py.lstrip. rewrite (quote_not_space _ Hq1).
  change (q1 :: body ++ q2 :: t) with ((q1 :: body) ++ q2 :: t).
  now rewrite rstrip_app_cons by now apply quote_not_space.
Qed.

(** A line that is a quoted literal, with a comma, white space and a
    comment after it or not, gives the text between the quotes. *)
Lemma line_item_literal indent q1 inner q2 comma ws comment :
  forallb Py.isspace indent = true ->
  cls_mem quotes q1 = true -> cls_mem quotes q2 = true ->
  inner <> [] -> no_newline inner = true ->
  quote_safe (tl inner) = true ->
  forallb Py.isspace ws = true -> comment_ok comment = true ->
  line_item (indent ++ q1 :: inner ++ q2 :: trailer comma ws comment)
  = Some inner.
Proof.
  intros Hi Hq1 Hq2 Hne Hnl Hsafe Hws Hc. unfold line_item.
  rewrite strip_literal_line by assumption.
  destruct (@rstrip_trailer comma ws comment Hws Hc)
    as (ws' & comment' & -> & Hws' & Hc').
  destruct (@line_pattern_capture q1 inner q2 comma ws' comment'
              Hq1 Hq2 Hne Hnl Hsafe Hws' Hc') as (res & -> & ->).
  now rewrite (@quote_not_slash q1 _ Hq1).
Qed.

(** Empty lines and comment lines give nothing. *)
Lemma line_item_skipped line :
  Py.strip line = [] \/ Py.startswith (lit_of "//") (Py.strip line) = true ->
  line_item line = None.
Proof.
  unfold line_item. intros [-> | ->]; [reflexivity|].
  now rewrite orb_true_r.
Qed.

End LineFacts.

(* ================================================================== *)
(** ** Finding a declaration                                            *)
(* ================================================================== *)

Module DeclFacts.
Import PyFacts ReFacts ReSteps ExtractFacts.

#[local] Arguments Ascii.eqb : simpl never.
#[local] Arguments Py.isspace : simpl never.

Lemma startswith_app_split a b s :
  Py.startswith (a ++ b) s
  = Py.startswith a s && Py.startswith b (skipn (length a) s).
Proof.
  revert s; induction a as [|x a IH]; intros s; simpl.
  - reflexivity.
  - destruct s as [|y s]; [reflexivity|].
    rewrite IH. now rewrite andb_assoc.
Qed.

(** A pattern that begins with two literals fails where their
    concatenation does not start. *)
Lemma lit2_fail a b r k st :
  Py.startswith (a ++ b) (rest st) = false ->
  run (Seq (Lit a) (Seq (Lit b) r)) k st = None.
Proof.
  rewrite startswith_app_split. intros H. simpl.
  destruct (Py.startswith a (rest st)); [|reflexivity].
  simpl in H. now rewrite H.
Qed.

Lemma search_absent a b r s :
  (forall i, i <= length s -> Py.startswith (a ++ b) (skipn i s) = false) ->
  re_search (Seq (Lit a) (Seq (Lit b) r)) s = None.
Proof.
  intros H. apply search_from_none. intros i Hi.
  apply lit2_fail. simpl. now apply H.
Qed.

(** Where the text [export const name] never starts, nothing is
    extracted. *)
Lemma extract_array_absent name content :
  (forall i, i <= length content ->
     Py.startswith (lit_of "export const " ++ name) (skipn i content)
     = false) ->
  extract_array name content = [].
Proof.
  intros H. unfold extract_array, find_array, array_pattern, set_pattern.
  now rewrite !search_absent.
Qed.

Lemma search_from_here r p s st :
  match_at r p s = Some st -> search_from r p s = Some st.
Proof. destruct s; simpl; now intros ->. Qed.

Lemma forallb_any s : forallb (cls_mem Any) s = true.
Proof. induction s; simpl; auto. Qed.

(** The first pattern on a declaration whose body holds no closing
    bracket: the body is what group 1 captures. *)
Lemma array_pattern_capture name ws1 ws2 body post p :
  forallb Py.isspace ws1 = true -> forallb Py.isspace ws2 = true ->
  forallb not_bracket body = true ->
  exists n,
    match_at (array_pattern name) p
      (lit_of "export const " ++ name ++ ws1 ++ lit_of "=" ++ ws2
       ++ lit_of "[" ++ body ++ lit_of "]" ++ lit_of ";" ++ post)
    = Some (MState n post (Some body)).
Proof.
  intros Hws1 Hws2 Hbody. eexists.
  unfold match_at, array_pattern, assign_open.
  rewrite run_seq, run_lit_app, run_seq, run_lit_app.
  rewrite run_seq, run_rep_greedy.
  apply rep_greedy_max; [exact Hws1 | reflexivity | simpl; lia |].
  rewrite run_seq, run_lit_app, run_seq, run_rep_greedy.
  apply rep_greedy_max; [exact Hws2 | reflexivity | simpl; lia |].
  rewrite run_seq, run_lit_app, run_seq, run_grp_lazy.
  apply rep_lazy_first; [apply forallb_any | lia | |].
  - intros a1 x a2 -> _. unfold set_grp; cbn [pos rest grp].
    apply lit_seq_fail; cbn [rest].
    rewrite forallb_app in Hbody. apply andb_true_iff in Hbody as [_ Hx].
    simpl in Hx. apply andb_true_iff in Hx as [Hx _].
    unfold not_bracket in Hx. apply negb_true_iff in Hx.
    simpl. now rewrite Hx.
  - unfold set_grp; cbn [pos rest grp].
    match goal with
    | |- context [firstn (?a + ?b - ?a) _] =>
        replace (a + b - a) with b by lia
    end.
    rewrite firstn_length_app.
    rewrite run_seq, run_lit_app, run_seq.
    rewrite run_opt_skip by (apply lit_seq_fail; reflexivity).
    rewrite run_lit_app. reflexivity.
Qed.

End DeclFacts.

(* ================================================================== *)
(** ** The categorizer as a partition                                   *)
(* ================================================================== *)

Module CatFacts.
Import PyFacts.

Lemma categorize_step_eq cats selector :
  categorize_step cats selector
  = append_to (bucket_of selector) selector cats.
Proof.
  unfold categorize_step, bucket_of.
  now destruct (first_category category_keywords (Py.lower selector)).
Qed.

Lemma append_to_buckets c selector f :
  append_to c selector (buckets f)
  = buckets (fun n => if str_eqb n c then f n ++ [selector] else f n).
Proof.
  unfold append_to, buckets. rewrite map_map. apply map_ext.
  intros n; simpl. now destruct (str_eqb n c).
Qed.

Lemma fold_buckets selectors : forall f,
  fold_left categorize_step selectors (buckets f)
  = buckets (fun n => f n ++ members selectors n).
Proof.
  induction selectors as [|s selectors IH]; intros f; simpl.
  - apply map_ext; intros n. now rewrite app_nil_r.
  - rewrite categorize_step_eq, append_to_buckets, IH.
    apply map_ext; intros n. unfold members; simpl.
    destruct (str_eqb n (bucket_of s)); [|reflexivity].
    now rewrite <- app_assoc.
Qed.

(** The loop and the final comprehension, in closed form. *)
Lemma categorize_eq selectors :
  categorize_partial_selectors selectors
  = filter (fun kv => nonempty (snd kv)) (buckets (members selectors)).
Proof.
  unfold categorize_partial_selectors.
  change categories with (buckets (fun _ => [])).
  now rewrite fold_buckets.
Qed.

Lemma in_categorize selectors k b :
  In (k, b) (categorize_partial_selectors selectors) <->
  In k bucket_names /\ b = members selectors k /\ b <> [].
Proof.
  rewrite categorize_eq, filter_In. unfold buckets. rewrite in_map_iff.
  simpl. split.
  - intros [(n & [= <- <-] & Hn) Hne]. repeat split; auto.
    intros E; rewrite E in Hne; discriminate.
  - intros (Hk & -> & Hne). split; [exists k; auto|].
    destruct (members selectors k); [congruence | reflexivity].
Qed.

Lemma first_category_split table text c :
  first_category table text = Some c ->
  exists before keywords after,
    table = before ++ (c, keywords) :: after /\
    any_keyword keywords text = true /\
    forall c' keywords', In (c', keywords') before ->
                         any_keyword keywords' text = false.
Proof.
  induction table as [|[c0 kws0] table IH]; simpl; [discriminate|].
  destruct (any_keyword kws0 text) eqn:E.
  - intros [= <-]. exists [], kws0, table; repeat split; auto.
    intros c' k' [].
  - intros H. destruct (IH H) as (before & kws & after & -> & Hk & Hb).
    exists ((c0, kws0) :: before), kws, after; repeat split; auto.
    intros c' k' [[= <- <-]|Hin]; [exact E | eauto].
Qed.

Lemma first_category_none table text :
  first_category table text = None <->
  forall c keywords, In (c, keywords) table ->
                     any_keyword keywords text = false.
Proof.
  induction table as [|[c0 kws0] table IH]; simpl.
  - split; [intros _ c k [] | reflexivity].
  - destruct (any_keyword kws0 text) eqn:E; split.
    + discriminate.
    + intros H. specialize (H c0 kws0 (or_introl eq_refl)). congruence.
    + intros H c k [[= <- <-]|Hin]; [exact E|]. now apply (proj1 IH H c).
    + intros H. apply IH. intros c k Hin. apply (H c k). now right.
Qed.

Lemma any_keyword_true keywords text :
  any_keyword keywords text = true <-> keyword_in keywords text.
Proof.
  unfold any_keyword, keyword_in. rewrite existsb_exists.
  split; intros (kw & Hin & H); exists kw; split; auto;
    now apply contains_iff.
Qed.

Lemma any_keyword_false keywords text :
  any_keyword keywords text = false <-> ~ keyword_in keywords text.
Proof.
  rewrite <- any_keyword_true.
  destruct (any_keyword keywords text); split; intro H;
    try reflexivity; try discriminate; try tauto.
Qed.

Lemma first_category_in table text c :
  first_category table text = Some c -> In c (map fst table).
Proof.
  intros H. destruct (first_category_split _ _ H) as (b & k & a & -> & _).
  rewrite map_app, in_app_iff. right; now left.
Qed.

(** The buckets are the categories of the keyword table, in its order,
    and [misc] after them. *)
Lemma bucket_names_eq :
  bucket_names = map fst category_keywords ++ [lit_of "misc"].
Proof. reflexivity. Qed.

Lemma bucket_in_names selector : In (bucket_of selector) bucket_names.
Proof.
  rewrite bucket_names_eq, in_app_iff. unfold bucket_of.
  destruct (first_category category_keywords (Py.lower selector)) eqn:E.
  - left. exact (first_category_in _ _ E).
  - right. now left.
Qed.

Lemma distinct_NoDup l : distinct l = true -> NoDup l.
Proof.
  induction l as [|x l IH]; simpl; intros H; constructor;
    apply andb_true_iff in H as [Hx Hl]; auto.
  intros Hin. apply negb_true_iff in Hx.
  assert (existsb (str_eqb x) l = true); [|congruence].
  apply existsb_exists. exists x; split; [exact Hin | apply str_eqb_refl].
Qed.

Lemma bucket_names_nodup : NoDup bucket_names.
Proof. apply distinct_NoDup. reflexivity. Qed.

Lemma concat_nonempty (d : dict (list str)) :
  concat (map snd (filter (fun kv => nonempty (snd kv)) d))
  = concat (map snd d).
Proof.
  induction d as [|[k [|x b]] d IH]; simpl; auto. now rewrite IH.
Qed.

Lemma concat_insert (g : str -> list str) c s names :
  NoDup names -> In c names ->
  Permutation
    (concat (map (fun n => if str_eqb n c then s :: g n else g n) names))
    (s :: concat (map g names)).
Proof.
  induction names as [|n names IH]; intros Hnd Hin; [destruct Hin|].
  inversion Hnd as [|? ? Hn Hnd']; subst.
  destruct Hin as [Hc|Hc]; simpl; subst.
  - rewrite str_eqb_refl. simpl.
    apply perm_skip. apply Permutation_app_head.
    rewrite (map_ext_in _ g); [reflexivity|].
    intros n Hin. destruct (str_eqb n c) eqn:E; [|reflexivity].
    apply str_eqb_eq in E; subst; contradiction.
  - destruct (str_eqb n c) eqn:E.
    + apply str_eqb_eq in E; subst; contradiction.
    + etransitivity; [apply Permutation_app_head, IH; assumption|].
      symmetry. apply Permutation_middle.
Qed.

Lemma members_partition selectors :
  Permutation (concat (map (members selectors) bucket_names)) selectors.
Proof.
  induction selectors as [|s selectors IH].
  - unfold members; simpl. reflexivity.
  - etransitivity; [|apply perm_skip, IH].
    rewrite (map_ext (members (s :: selectors))
               (fun n => if str_eqb n (bucket_of s)
                         then s :: members selectors n
                         else members selectors n)).
    + apply concat_insert;
        [apply bucket_names_nodup | apply bucket_in_names].
    + intros n; unfold members; simpl.
      now destruct (str_eqb n (bucket_of s)).
Qed.

(** The buckets of the result, one after the other, hold the input. *)
Lemma categorize_permutation selectors :
  Permutation
    (concat (map snd (categorize_partial_selectors selectors))) selectors.
Proof.
  rewrite categorize_eq, concat_nonempty. unfold buckets.
  rewrite map_map; simpl. apply members_partition.
Qed.

Lemma lower_keeps p s :
  Py.lower p = p -> substring p s -> substring p (Py.lower s).
Proof.
  intros Hp (a & b & ->). exists (Py.lower a), (Py.lower b).
  unfold Py.lower in *. now rewrite !map_app, Hp.
Qed.

End CatFacts.

(* ================================================================== *)
(** ** The properties of the specification                              *)
(* ================================================================== *)

Import PyFacts ReFacts ReSteps ExtractFacts LineFacts DeclFacts CatFacts.
Import Examples.

Lemma contains_char a s : Py.contains [a] s = true <-> In a s.
Proof.
  rewrite contains_iff. split.
  - intros (u & v & ->). apply in_or_app; right; now left.
  - intros H. apply in_split in H as (u & v & ->). now exists u, v.
Qed.

(** C1, as the program has it: the body captured for a name (an
    identifier) is read as a single line exactly when the body without
    its leading and trailing white space holds no line break, or the body
    holds more than four single quotes; on that path all single-quoted
    literals are taken, and the double-quoted ones only when there is no
    single-quoted one.  A body with a line break inside and at most four
    single quotes goes through the line-by-line path. *)
Theorem single_line_rule (name content : str) (m : mstate) :
  identifier name = true ->
  find_array name content = Some m ->
  let body := group1 m in
  (single_line body = true <->
     ~ In newline (Py.strip body) \/ 4 < Py.count squote body)
  /\ extract_array name content
     = (if single_line body
        then match re_findall single_quoted body with
             | [] => re_findall double_quoted body
             | items => items
             end
        else collect_lines body)
  /\ (In newline (Py.strip body) -> Py.count squote body <= 4 ->
      extract_array name content = collect_lines body).
Proof.
  intros _ Hm body.
  assert (Hrule : single_line body = true <->
                  ~ In newline (Py.strip body) \/ 4 < Py.count squote body).
  { unfold single_line. rewrite orb_true_iff, negb_true_iff, Nat.ltb_lt.
    rewrite <- contains_char.
    destruct (Py.contains [newline] (Py.strip body)); split;
      intros [H|H]; auto; try discriminate; now elim H. }
  assert (Hex : extract_array name content = array_items body).
  { unfold extract_array. now rewrite Hm. }
  split; [exact Hrule|]. split.
  - rewrite Hex. reflexivity.
  - intros Hnl Hcount. rewrite Hex. unfold array_items.
    destruct (single_line body) eqn:E; [|reflexivity].
    destruct (proj1 Hrule eq_refl) as [H|H]; [contradiction | lia].
Qed.

(** The rule on a body of two lines with four single quotes. *)
Lemma single_line_rule_witness :
  extract_array (lit_of "X") two_items_doc = [ lit_of "a', 'b" ].
Proof.
  pose (m := MState 30 [] (Some two_items_body)).
  destruct (@single_line_rule (lit_of "X") two_items_doc m eq_refl eq_refl)
    as (_ & _ & H).
  rewrite H.
  - reflexivity.
  - vm_compute. auto 10.
  - vm_compute. lia.
Defined.

(** C1 as stated fails: a body with a line break and four single quotes
    is not read as a single line, and what is extracted differs from the
    single-line reading. *)
Lemma two_quotes_not_single_line :
  In newline two_items_body /\ Py.count squote two_items_body = 4 /\
  single_line two_items_body = false /\
  extract_array (lit_of "X") two_items_doc = [ lit_of "a', 'b" ] /\
  single_line_items two_items_body = [ lit_of "a"; lit_of "b" ] /\
  ~ (forall body, single_line body = true <->
                  ~ In newline body \/ 2 < Py.count squote body).
Proof.
  assert (Hin : In newline two_items_body) by (vm_compute; auto 10).
  repeat split; try reflexivity; try exact Hin.
  intros H. specialize (H two_items_body).
  assert (E : single_line two_items_body = true)
    by (apply H; right; vm_compute; lia).
  discriminate E.
Qed.

Lemma bucket_of_misc selector :
  bucket_of selector = lit_of "misc" <->
  forall c keywords, In (c, keywords) category_keywords ->
                     ~ keyword_in keywords (Py.lower selector).
Proof.
  unfold bucket_of. split.
  - destruct (first_category category_keywords (Py.lower selector)) eqn:E.
    + intros ->. exfalso.
      generalize (@first_category_in _ _ _ E).
      vm_compute. intuition discriminate.
    + intros _ c kws Hin. apply any_keyword_false.
      exact (proj1 (first_category_none _ _) E c kws Hin).
  - intros H.
    assert (E : first_category category_keywords (Py.lower selector) = None).
    { apply first_category_none. intros c kws Hin.
      apply any_keyword_false. exact (H c kws Hin). }
    now rewrite E.
Qed.

Lemma holds_selector selectors s :
  In s selectors ->
  In (bucket_of s, members selectors (bucket_of s))
     (categorize_partial_selectors selectors)
  /\ In s (members selectors (bucket_of s)).
Proof.
  intros Hin.
  assert (Hs : In s (members selectors (bucket_of s))).
  { unfold members. apply filter_In. split; [exact Hin|].
    apply str_eqb_refl. }
  split; [|exact Hs].
  apply in_categorize. repeat split.
  - apply bucket_in_names.
  - intros E. rewrite E in Hs. destruct Hs.
Qed.

Lemma holder_unique selectors s k b :
  In (k, b) (categorize_partial_selectors selectors) -> In s b ->
  k = bucket_of s.
Proof.
  intros Hkb Hs. apply in_categorize in Hkb as (_ & -> & _).
  unfold members in Hs. apply filter_In in Hs as [_ Hs].
  now apply str_eqb_eq.
Qed.

(** C2: the categorizer partitions its input.  The buckets of the result,
    taken together, hold the input sequence, each occurrence once; every
    input string is in one bucket and in no other; and that bucket is
    [misc] exactly when no keyword of any category occurs in the
    lower-cased string. *)
Theorem categorize_total_partition (selectors : list str) (s : str) :
  In s selectors ->
  let out := categorize_partial_selectors selectors in
  Permutation (concat (map snd out)) selectors
  /\ count_occ str_eq_dec (concat (map snd out)) s
     = count_occ str_eq_dec selectors s
  /\ (NoDup selectors -> NoDup (concat (map snd out)))
  /\ exists k b,
       In (k, b) out /\ In s b
       /\ (forall k' b', In (k', b') out -> In s b' -> k' = k)
       /\ (k = lit_of "misc" <->
           forall c keywords, In (c, keywords) category_keywords ->
                              ~ keyword_in keywords (Py.lower s)).
Proof.
  intros Hin out.
  assert (Hperm : Permutation (concat (map snd out)) selectors)
    by apply categorize_permutation.
  split; [exact Hperm|]. split.
  { now apply Permutation_count_occ. }
  split.
  { intros Hnd. apply (Permutation_NoDup (Permutation_sym Hperm) Hnd). }
  destruct (holds_selector selectors s Hin) as [Hkb Hs].
  exists (bucket_of s), (members selectors (bucket_of s)).
  repeat split; auto.
  - intros k' b' Hkb' Hs'. exact (@holder_unique selectors s k' b' Hkb' Hs').
  - apply bucket_of_misc.
  - apply bucket_of_misc.
Qed.

(** Three selectors, three buckets. *)
Lemma categorize_total_partition_witness :
  Permutation
    (concat (map snd (categorize_partial_selectors
                        (words ["navbar-ad"; "Foo"; "SideBar"]))))
    (words ["navbar-ad"; "Foo"; "SideBar"]).
Proof.
  apply (@categorize_total_partition
           (words ["navbar-ad"; "Foo"; "SideBar"]) (lit_of "Foo")).
  simpl; auto.
Defined.

(** C3: first match wins.  The categories are tried in the order ads,
    navigation, ..., related; the bucket of an input string is the first
    category one of whose keywords occurs in the lower-cased string (and
    [misc] when there is none); a string in which both [nav] and [ad]
    occur goes to [ads]; and no string is in two buckets. *)
Theorem first_match_wins (selectors : list str) (s : str) :
  In s selectors ->
  let out := categorize_partial_selectors selectors in
  map fst category_keywords = category_order
  /\ exists k b,
       In (k, b) out /\ In s b
       /\ (forall k' b', In (k', b') out -> In s b' -> k' = k)
       /\ ((exists before keywords after,
              category_keywords = before ++ (k, keywords) :: after
              /\ keyword_in keywords (Py.lower s)
              /\ forall c' keywords', In (c', keywords') before ->
                                      ~ keyword_in keywords' (Py.lower s))
           \/ (k = lit_of "misc"
               /\ forall c keywords, In (c, keywords) category_keywords ->
                                     ~ keyword_in keywords (Py.lower s)))
       /\ (substring (lit_of "nav") s -> substring (lit_of "ad") s ->
           k = lit_of "ads").
Proof.
  intros Hin out. split; [reflexivity|].
  destruct (holds_selector selectors s Hin) as [Hkb Hs].
  exists (bucket_of s), (members selectors (bucket_of s)).
  repeat split; auto.
  - intros k' b' Hkb' Hs'. exact (@holder_unique selectors s k' b' Hkb' Hs').
  - unfold bucket_of.
    destruct (first_category category_keywords (Py.lower s)) eqn:E.
    + left. destruct (first_category_split _ _ E)
        as (before & kws & after & Ht & Hk & Hb).
      exists before, kws, after. repeat split; auto.
      * now apply any_keyword_true.
      * intros c' k' Hin'. apply any_keyword_false. exact (Hb c' k' Hin').
    + right. split; [reflexivity|]. intros c kws Hin'.
      apply any_keyword_false.
      exact (proj1 (first_category_none _ _) E c kws Hin').
  - intros _ Had. unfold bucket_of.
    assert (Hk : any_keyword
                   (words ["ad"; "advert"; "promo"; "sponsor"; "banner"])
                   (Py.lower s) = true).
    { apply any_keyword_true. exists (lit_of "ad"). split; [now left|].
      now apply lower_keeps. }
    unfold category_keywords. cbn [first_category]. now rewrite Hk.
Qed.

(** A selector with [nav] and [ad] in it is filed under ads. *)
Lemma first_match_wins_witness :
  exists b,
    In (lit_of "ads", b)
       (categorize_partial_selectors (words ["top-nav"; "nav-ad-slot"]))
    /\ In (lit_of "nav-ad-slot") b.
Proof.
  destruct (@first_match_wins (words ["top-nav"; "nav-ad-slot"])
              (lit_of "nav-ad-slot"))
    as (_ & k & b & Hkb & Hs & _ & _ & Hads).
  - simpl; auto.
  - exists b. rewrite <- Hads; [auto| |].
    + exists [], (lit_of "-ad-slot"). reflexivity.
    + exists (lit_of "nav-"), (lit_of "-slot"). reflexivity.
Defined.

(** C6: the result lists the buckets in the declared order, each bucket
    holds the inputs that belong to it in the order of the input, and a
    bucket without inputs is not listed. *)
Theorem categorize_keeps_order (selectors : list str) :
  let out := categorize_partial_selectors selectors in
  out = filter (fun kv => nonempty (snd kv))
          (map (fun name =>
                  (name,
                   filter (fun selector => str_eqb name (bucket_of selector))
                          selectors))
               bucket_names)
  /\ map fst out
     = filter (fun name =>
                 existsb (fun selector => str_eqb name (bucket_of selector))
                         selectors)
              bucket_names
  /\ Forall (fun kv =>
               snd kv <> []
               /\ snd kv = filter (fun selector =>
                                     str_eqb (fst kv) (bucket_of selector))
                                  selectors) out.
Proof.
  intros out.
  assert (Heq : out = filter (fun kv => nonempty (snd kv))
                        (buckets (members selectors)))
    by apply categorize_eq.
  split; [exact Heq|]. split.
  - rewrite Heq. unfold buckets.
    induction bucket_names as [|n names IH]; simpl; [reflexivity|].
    assert (E : nonempty (members selectors n)
                = existsb (fun selector => str_eqb n (bucket_of selector))
                          selectors).
    { unfold members. clear. induction selectors as [|x l IH]; simpl; auto.
      destruct (str_eqb n (bucket_of x)); simpl; auto. }
    rewrite <- E. destruct (nonempty (members selectors n)); simpl;
      now rewrite IH.
  - apply Forall_forall. intros [k b] Hkb.
    apply in_categorize in Hkb as (_ & -> & Hne). simpl. split; auto.
Qed.

(** C4: a name (an identifier) declared in neither form gives the empty
    sequence.  When
    neither the bracket pattern nor the Set pattern matches anywhere in
    the text, [extract_array] returns the empty list; and so does
    [extract_js_array_simple] when its pattern matches nowhere. *)
Theorem absent_declaration_gives_empty (name content scoring_content : str) :
  identifier name = true ->
  ~ occurs (array_pattern name) content ->
  ~ occurs (set_pattern name) content ->
  ~ occurs (simple_pattern name) scoring_content ->
  extract_array name content = []
  /\ extract_js_array_simple name scoring_content = [].
Proof.
  intros _ H1 H2 H3.
  apply re_search_none in H1, H2, H3.
  unfold extract_array, find_array, extract_js_array_simple.
  now rewrite H1, H2, H3.
Qed.

(** A name the one-declaration document does not declare. *)
Lemma absent_declaration_gives_empty_witness :
  extract_array (lit_of "EXACT_SELECTORS") entry_decl = []
  /\ extract_js_array_simple (lit_of "EXACT_SELECTORS") entry_decl = [].
Proof.
  apply absent_declaration_gives_empty;
    [reflexivity | apply re_search_none; reflexivity ..].
Defined.

(** C5: on the line-by-line path the program does not always give the
    text between the quotes of a line that is a quoted literal followed
    by a comma.  The line of [link_line] is two blanks, a single-quoted
    literal and a comma; its literal has no line break and no single
    quote inside; and what the line gives is the beginning of the
    literal, up to its first double quote, because the two slashes after
    that quote are read as the start of a line comment.  So the array of
    [link_doc], read line by line, yields a cut item, while the same two
    literals written on one line yield the whole literal.  The same
    happens to the double-quoted literal of [cut_line]. *)
Theorem literal_cut_at_inner_quote :
  link_line
  = lit_of "  " ++ squote :: link_inner ++ squote :: trailer true [] None
  /\ no_newline link_inner = true
  /\ Py.contains [squote] link_inner = false
  /\ line_item link_line = Some (lit_of "a[href*=")
  /\ line_item link_line <> Some link_inner
  /\ extract_array (lit_of "X") link_doc = [ lit_of "a[href*="; lit_of "b" ]
  /\ extract_array (lit_of "X") link_doc_one_line = [ link_inner; lit_of "b" ]
  /\ cut_line = dquote :: cut_inner ++ dquote :: trailer false [] None
  /\ line_item cut_line = Some (lit_of "a")
  /\ extract_array (lit_of "X") cut_doc = [ lit_of "a"; lit_of "c" ].
Proof.
  repeat apply conj; try (vm_compute; reflexivity).
  vm_compute. discriminate.
Qed.

(** C10: no string that [extract_array] or [extract_js_array_simple]
    returns for a name (an identifier) is empty. *)
Theorem extracted_items_nonempty (name content item : str) :
  identifier name = true ->
  In item (extract_array name content)
  \/ In item (extract_js_array_simple name content) ->
  item <> [].
Proof.
  intros _ [H|H].
  - unfold extract_array in H. destruct (find_array name content);
      [exact (@array_items_nonempty _ _ H) | destruct H].
  - unfold extract_js_array_simple in H.
    destruct (re_search (simple_pattern name) content);
      [exact (@collect_lines_nonempty _ _ H) | destruct H].
Qed.

(** An item of the one-declaration document. *)
Lemma extracted_items_nonempty_witness : lit_of "main" <> [].
Proof.
  apply (@extracted_items_nonempty (lit_of "ENTRY_POINT_ELEMENTS")
           entry_decl (lit_of "main")); [reflexivity|].
  left. vm_compute. auto.
Defined.

(** In a document with the one [export const], the declaration of
    [ENTRY_POINT_ELEMENTS], that array is found ... *)
Lemma entry_found (pre post : str) :
  offsets (lit_of "export const ") (pre ++ entry_decl ++ post) = [length pre] ->
  extract_array (lit_of "ENTRY_POINT_ELEMENTS") (pre ++ entry_decl ++ post)
  = [ lit_of "article"; lit_of "main" ].
Proof.
  intros Hocc. unfold extract_array, find_array, re_search.
  rewrite (@search_from_skip _ _ (length pre) 0).
  - rewrite skipn_length_app.
    destruct (@array_pattern_capture (lit_of "ENTRY_POINT_ELEMENTS")
                (lit_of " ") (lit_of " ") entry_body post (0 + length pre))
      as [n Hn]; try reflexivity.
    assert (Hs : search_from (array_pattern (lit_of "ENTRY_POINT_ELEMENTS"))
                   (0 + length pre) (entry_decl ++ post)
                 = Some (MState n post (Some entry_body)))
      by (apply search_from_here; exact Hn).
    rewrite Hs. reflexivity.
  - rewrite length_app. lia.
  - intros i Hi. apply lit_seq_fail. cbn [rest].
    apply offsets_elsewhere.
    + rewrite length_app. lia.
    + rewrite Hocc. simpl. lia.
Qed.

(** ... and no other name is. *)
Lemma others_absent (pre post name : str) :
  offsets (lit_of "export const ") (pre ++ entry_decl ++ post) = [length pre] ->
  Py.startswith (lit_of "export const " ++ name) (entry_decl ++ post) = false ->
  extract_array name (pre ++ entry_decl ++ post) = [].
Proof.
  intros Hocc Hname. apply extract_array_absent. intros i Hi.
  destruct (Nat.eq_dec i (length pre)) as [->|Hne].
  - now rewrite skipn_length_app.
  - apply startswith_app_l. apply offsets_elsewhere; [exact Hi|].
    rewrite Hocc. simpl. lia.
Qed.

Lemma manifest_entry_only (pre post : str) :
  offsets (lit_of "export const ") (pre ++ entry_decl ++ post) = [length pre] ->
  manifest (pre ++ entry_decl ++ post) [] = manifest entry_decl [].
Proof.
  intros Hocc. unfold manifest.
  rewrite (entry_found pre post Hocc).
  rewrite (@others_absent pre post (lit_of "PARTIAL_SELECTORS") Hocc eq_refl).
  rewrite (@others_absent pre post (lit_of "EXACT_SELECTORS") Hocc eq_refl).
  rewrite (@others_absent pre post (lit_of "TEST_ATTRIBUTES") Hocc eq_refl).
  rewrite (@others_absent pre post (lit_of "BLOCK_ELEMENTS") Hocc eq_refl).
  rewrite (@others_absent pre post (lit_of "PRESERVE_ELEMENTS") Hocc eq_refl).
  rewrite (@others_absent pre post (lit_of "INLINE_ELEMENTS") Hocc eq_refl).
  rewrite (@others_absent pre post (lit_of "ALLOWED_EMPTY_ELEMENTS") Hocc
             eq_refl).
  rewrite (@others_absent pre post (lit_of "ALLOWED_ATTRIBUTES") Hocc eq_refl).
  rewrite (@others_absent pre post (lit_of "FOOTNOTE_INLINE_REFERENCES") Hocc
             eq_refl).
  rewrite (@others_absent pre post (lit_of "FOOTNOTE_LIST_SELECTORS") Hocc
             eq_refl).
  vm_compute. reflexivity.
Qed.

(** A text without [const] declares no array of the simple form. *)
Lemma simple_absent (name scoring_content : str) :
  Py.contains (lit_of "const ") scoring_content = false ->
  extract_js_array_simple name scoring_content = [].
Proof.
  intros H. unfold extract_js_array_simple, simple_pattern.
  rewrite search_absent; [reflexivity|].
  intros i _. apply startswith_app_l.
  destruct (Py.startswith (lit_of "const ") (skipn i scoring_content)) eqn:E;
    [|reflexivity].
  apply contains_false_iff in H. elim H.
  apply startswith_iff in E as [b Hb].
  exists (firstn i scoring_content), b.
  now rewrite <- Hb, firstn_skipn.
Qed.

Lemma manifest_no_scoring (content scoring_content : str) :
  Py.contains (lit_of "const ") scoring_content = false ->
  manifest content scoring_content = manifest content [].
Proof.
  intros H. unfold manifest.
  now rewrite !(fun name => @simple_absent name scoring_content H).
Qed.

Section MainFacts.

Variable path : Type.
Variable Path : str -> path.
Variable path_str : path -> str.
Variable sibling : path -> str -> path.

(** C7, as the program has it: when the primary path does not exist the
    run prints nothing, writes the diagnostic line to the error stream
    and ends with status 1; when it is a file that reads as text, and
    the sibling is absent or reads as text too, the run prints the
    manifest and ends with status 0. *)
Theorem exit_status (argv : list str) (d : disk path) :
  (d (input_path Path argv) = None ->
   main Path path_str sibling argv d
   = Exit 1 []
       (lit_of "Error: " ++ path_str (input_path Path argv)
        ++ lit_of " not found" ++ [newline]))
  /\ (forall content scoring_content,
        d (input_path Path argv) = Some (File content) ->
        d (scoring_path Path sibling argv) = Some (File scoring_content)
        \/ (d (scoring_path Path sibling argv) = None /\ scoring_content = []) ->
        main Path path_str sibling argv d
        = Exit 0 (dumps (manifest content scoring_content) ++ [newline])
               []).
Proof.
  unfold main. split.
  - now intros ->.
  - intros content sc -> [-> | [-> ->]]; reflexivity.
Qed.

(** C8: for a document whose one [export const] is the declaration of
    [ENTRY_POINT_ELEMENTS] with the items article and main, the run ends
    normally and prints a manifest in which
    [content_selectors.selectors] is article, main, every other sequence
    field is the empty array and the patterns are the empty mapping; this
    when the sibling file is absent, which is read as the empty text, and
    also when it is there and declares nothing. *)
Theorem entry_point_only (argv : list str) (d : disk path)
        (pre post scoring_content : str) :
  let content := pre ++ entry_decl ++ post in
  offsets (lit_of "export const ") content = [length pre] ->
  d (input_path Path argv) = Some (File content) ->
  (d (scoring_path Path sibling argv) = None /\ scoring_content = [])
  \/ (d (scoring_path Path sibling argv) = Some (File scoring_content)
      /\ Py.contains (lit_of "const ") scoring_content = false) ->
  let m := manifest content scoring_content in
  main Path path_str sibling argv d = Exit 0 (dumps m ++ [newline]) []
  /\ at_path [lit_of "content_selectors"; lit_of "selectors"] m
     = Some (strings [lit_of "article"; lit_of "main"])
  /\ Forall (fun field => at_path field m = Some (JArray []))
            other_sequence_fields
  /\ at_path [lit_of "remove"; lit_of "partial_patterns";
              lit_of "patterns"] m
     = Some (JObject []).
Proof.
  intros content Hocc Hp Hs m.
  assert (Hm : m = manifest entry_decl []).
  { unfold m. rewrite <- (manifest_entry_only pre post Hocc).
    destruct Hs as [[_ ->] | [_ Hsc]];
      [reflexivity | now apply manifest_no_scoring]. }
  split.
  - unfold main. rewrite Hp.
    destruct Hs as [[-> ->] | [-> _]]; reflexivity.
  - rewrite Hm. split; [reflexivity|]. split; [|reflexivity].
    unfold other_sequence_fields.
    repeat (apply Forall_cons; [reflexivity|]). apply Forall_nil.
Qed.

End MainFacts.

(** A run without argument on an empty disk, and a run on the
    one-declaration document. *)
Lemma exit_status_witness :
  main here here sibling [lit_of "extract.py"] (fun _ => None)
  = Exit 1 []
      (lit_of ("Error: tmp/defuddle/src/constants.ts not found" ++ NL))
  /\ main here here sibling argv1 (one_entry constants_ts (File entry_decl))
     = Exit 0 (dumps (manifest entry_decl []) ++ [newline]) [].
Proof.
  split.
  - apply (proj1 (exit_status here here sibling
                    [lit_of "extract.py"] (fun _ => None))).
    reflexivity.
  - apply (proj2 (exit_status here here sibling argv1
                    (one_entry constants_ts (File entry_decl)))).
    + reflexivity.
    + right. split; reflexivity.
Defined.

(** C7 as stated fails: the path exists, and the run still ends with
    status 1 and prints nothing, because what the path names cannot be
    read as text. *)
Lemma unreadable_input_fails :
  let d := one_entry constants_ts Unreadable in
  d (input_path here argv1) <> None
  /\ status (main here here sibling argv1 d) = 1
  /\ stdout (main here here sibling argv1 d) = [].
Proof. repeat split. discriminate. Qed.

(** The declaration between a comment line and a line break. *)
Lemma entry_point_only_witness :
  at_path [lit_of "content_selectors"; lit_of "selectors"]
          (manifest (header ++ entry_decl ++ footer) [])
  = Some (strings [lit_of "article"; lit_of "main"]).
Proof.
  apply (@entry_point_only str here here sibling argv1
           (one_entry constants_ts (File (header ++ entry_decl ++ footer)))
           header footer []);
    [reflexivity | reflexivity | left; split; reflexivity].
Defined.

(* ================================================================== *)
(** ** Further properties of the extractor                              *)
(* ================================================================== *)

Module TextFacts.

Lemma substring_refl s : substring s s.
Proof. exists [], []. now rewrite app_nil_r. Qed.

Lemma substring_trans a b c : substring a b -> substring b c -> substring a c.
Proof.
  intros (u & v & ->) (x & y & ->). exists (x ++ u), (v ++ y).
  now rewrite <- !app_assoc.
Qed.

Lemma substring_nil s : substring [] s.
Proof. now exists [], s. Qed.

Lemma suffix_substring t s : suffix_of t s -> substring t s.
Proof. intros [a ->]. exists a, []. now rewrite app_nil_r. Qed.

Lemma skipn_suffix i (s : str) : suffix_of (skipn i s) s.
Proof. exists (firstn i s). now rewrite firstn_skipn. Qed.

Lemma firstn_substring n (s : str) : substring (firstn n s) s.
Proof. exists [], (skipn n s). simpl. now rewrite firstn_skipn. Qed.

Lemma lstrip_suffix s : suffix_of (Py.lstrip s) s.
Proof.
  induction s as [|a s [u IH]]; simpl.
  - now exists [].
  - destruct (Py.isspace a); [|now exists []].
    exists (a :: u). simpl. now rewrite <- IH.
Qed.

Lemma rev_substring a b : substring a b -> substring (rev a) (rev b).
Proof.
  intros (u & v & ->). exists (rev v), (rev u).
  now rewrite !rev_app_distr, <- app_assoc.
Qed.

Lemma strip_substring s : substring (Py.strip s) s.
Proof.
  unfold Py.strip, Py.rstrip.
  apply substring_trans with (Py.lstrip s);
    [|apply suffix_substring, lstrip_suffix].
  rewrite <- (rev_involutive (Py.lstrip s)) at 2.
  apply rev_substring, suffix_substring, lstrip_suffix.
Qed.

Lemma split_nonempty sep s : Py.split sep s <> [].
Proof.
  destruct s as [|a s]; simpl; [discriminate|].
  destruct (Ascii.eqb a sep); [discriminate|].
  destruct (Py.split sep s); discriminate.
Qed.

(** Joining the pieces of a split with the separator gives the text
    back. *)
Lemma join_split sep s : Py.join [sep] (Py.split sep s) = s.
Proof.
  induction s as [|a s IH]; simpl; [reflexivity|].
  destruct (Ascii.eqb_spec a sep) as [->|Hne].
  - generalize (split_nonempty sep s). simpl in *.
    destruct (Py.split sep s) as [|p ps]; [congruence|].
    intros _. now rewrite IH.
  - generalize (split_nonempty sep s).
    destruct (Py.split sep s) as [|p ps]; [congruence|]. intros _.
    destruct ps as [|p' ps]; simpl in *; now rewrite <- IH.
Qed.

Lemma join_substring sep pieces piece :
  In piece pieces -> substring piece (Py.join sep pieces).
Proof.
  induction pieces as [|p ps IH]; intros Hin; [destruct Hin|].
  destruct ps as [|p' ps].
  - destruct Hin as [<-|[]]. apply substring_refl.
  - change (Py.join sep (p :: p' :: ps))
      with (p ++ sep ++ Py.join sep (p' :: ps)).
    destruct Hin as [<-|Hin].
    + exists [], (sep ++ Py.join sep (p' :: ps)). reflexivity.
    + destruct (IH Hin) as (u & v & ->).
      exists (p ++ sep ++ u), v. now rewrite <- !app_assoc.
Qed.

Lemma split_substring sep s piece :
  In piece (Py.split sep s) -> substring piece s.
Proof.
  intros H. rewrite <- (join_split sep s) at 1. now apply join_substring.
Qed.

End TextFacts.

Module MatchFacts.
Import PyFacts ReFacts ReSteps ExtractFacts TextFacts.

(** A match reads a piece of the text and moves on by its length. *)
Lemma matches_consumes r st st' :
  matches r st st' ->
  exists c, rest st = c ++ rest st' /\ pos st' = pos st + length c.
Proof.
  induction 1 as [l st Hl|c a s st Hr Ha|c min greedy n st Hmin Hlen Hall
                 |r st st' Hm IH|r st|r1 r2 st st1 st2 Hm1 IH1 Hm2 IH2
                 |r st st' Hm IH|st Hp|st He]; simpl.
  - exists l. split; [now apply startswith_split | reflexivity].
  - exists [a]. rewrite Hr. split; reflexivity.
  - exists (firstn n (rest st)). split.
    + now rewrite firstn_skipn.
    + rewrite length_firstn. lia.
  - exact IH.
  - exists []. split; [reflexivity | simpl; lia].
  - destruct IH1 as (c1 & H1 & P1), IH2 as (c2 & H2 & P2).
    exists (c1 ++ c2). split.
    + now rewrite H1, H2, app_assoc.
    + rewrite length_app. lia.
  - exact IH.
  - exists []. split; [reflexivity | simpl; lia].
  - exists []. split; [reflexivity | simpl; lia].
Qed.

Lemma matches_suffix r st st' S :
  matches r st st' -> suffix_of (rest st) S -> suffix_of (rest st') S.
Proof.
  intros Hm [a ->]. destruct (matches_consumes Hm) as (c & -> & _).
  exists (a ++ c). now rewrite app_assoc.
Qed.

(** What a group holds after a match is a piece of the text. *)
Lemma matches_group_sub r st st' :
  matches r st st' ->
  forall S, suffix_of (rest st) S ->
            (forall g, grp st = Some g -> substring g S) ->
            forall g, grp st' = Some g -> substring g S.
Proof.
  induction 1 as [l st Hl|c a s st Hr Ha|c min greedy n st Hmin Hlen Hall
                 |r st st' Hm IH|r st|r1 r2 st st1 st2 Hm1 IH1 Hm2 IH2
                 |r st st' Hm IH|st Hp|st He]; simpl; intros S Hsuf Hg; auto.
  - apply IH2.
    + exact (matches_suffix Hm1 Hsuf).
    + now apply IH1.
  - intros g [= <-].
    apply substring_trans with (rest st); [apply firstn_substring|].
    now apply suffix_substring.
Qed.

Lemma match_group1_sub r p s res :
  matches r (MState p s None) res -> substring (group1 res) s.
Proof.
  intros Hm. unfold group1. destruct (grp res) as [g|] eqn:E;
    [|apply substring_nil].
  apply (matches_group_sub Hm (S := s)); simpl; auto.
  - now exists [].
  - discriminate.
Qed.

Lemma search_group1_sub r s res :
  re_search r s = Some res -> substring (group1 res) s.
Proof.
  intros H. destruct (re_search_some _ _ H) as [i Hm].
  apply substring_trans with (skipn i s).
  - exact (match_group1_sub Hm).
  - apply suffix_substring, skipn_suffix.
Qed.

Lemma findall_from_sub r s : forall skip p x,
  In x (findall_from r skip p s) -> substring x s.
Proof.
  assert (Hcons : forall a (t x : str), substring x t -> substring x (a :: t)).
  { intros a t x (u & v & ->). now exists (a :: u), v. }
  induction s as [|a s IH]; intros skip p x; simpl.
  - destruct skip; [|intros []].
    destruct (match_at r p []) eqn:E; [|intros []].
    intros [<-|[]]. apply match_at_sound in E. exact (match_group1_sub E).
  - destruct skip as [|n]; [|intros H; apply Hcons; exact (IH _ _ _ H)].
    destruct (match_at r p (a :: s)) eqn:E;
      [|intros H; apply Hcons; exact (IH _ _ _ H)].
    intros [<-|H]; [|apply Hcons; exact (IH _ _ _ H)].
    apply match_at_sound in E. exact (match_group1_sub E).
Qed.

Lemma line_item_sub line x : line_item line = Some x -> substring x line.
Proof.
  unfold line_item. destruct (_ || _); [discriminate|].
  destruct (re_match line_pattern (Py.strip line)) eqn:E; [|discriminate].
  intros [= <-]. apply match_at_sound in E.
  apply substring_trans with (Py.strip line);
    [exact (match_group1_sub E) | apply strip_substring].
Qed.

Lemma collect_lines_sub body x : In x (collect_lines body) -> substring x body.
Proof.
  rewrite collect_lines_eq, in_flat_map. intros (line & Hl & Hx).
  destruct (line_item line) eqn:E; simpl in Hx; [|contradiction].
  destruct Hx as [->|[]].
  apply substring_trans with line;
    [exact (line_item_sub _ E) | exact (split_substring _ _ _ Hl)].
Qed.

Lemma array_items_sub body x : In x (array_items body) -> substring x body.
Proof.
  unfold array_items, single_line_items.
  destruct (single_line body); [|apply collect_lines_sub].
  destruct (re_findall single_quoted body) eqn:E.
  - apply findall_from_sub.
  - rewrite <- E. apply findall_from_sub.
Qed.

End MatchFacts.
Import TextFacts MatchFacts.

(** X1: extraction takes text over as it stands.  Every string that
    [extract_array] or [extract_js_array_simple] returns for a name (an
    identifier) occurs in the text it was given. *)
Theorem extracted_items_occur (name content item : str) :
  identifier name = true ->
  In item (extract_array name content)
  \/ In item (extract_js_array_simple name content) ->
  substring item content.
Proof.
  intros _ [H|H].
  - unfold extract_array, find_array in H.
    destruct (re_search (array_pattern name) content) as [m|] eqn:E1.
    + apply substring_trans with (group1 m);
        [exact (@array_items_sub _ _ H) | exact (search_group1_sub _ _ E1)].
    + destruct (re_search (set_pattern name) content) as [m|] eqn:E2;
        [|destruct H].
      apply substring_trans with (group1 m);
        [exact (@array_items_sub _ _ H) | exact (search_group1_sub _ _ E2)].
  - unfold extract_js_array_simple in H.
    destruct (re_search (simple_pattern name) content) as [m|] eqn:E;
      [|destruct H].
    apply substring_trans with (group1 m);
      [exact (@collect_lines_sub _ _ H) | exact (search_group1_sub _ _ E)].
Qed.

(** An item of the one-declaration document, found in it. *)
Lemma extracted_items_occur_witness : substring (lit_of "article") entry_decl.
Proof.
  apply (@extracted_items_occur (lit_of "ENTRY_POINT_ELEMENTS")
           entry_decl (lit_of "article")); [reflexivity|].
  left. vm_compute. auto.
Defined.

Lemma line_pattern_shape s res :
  matches line_pattern (MState 0 s None) res ->
  exists q1 q2 tail,
    s = q1 :: group1 res ++ q2 :: tail
    /\ cls_mem quotes q1 = true /\ cls_mem quotes q2 = true
    /\ group1 res <> [] /\ no_newline (group1 res) = true.
Proof.
  unfold line_pattern. intros H.
  inversion H as [| | | | |? ? ? st1 ? Hbos H1| | |]; subst; clear H.
  inversion Hbos; subst; clear Hbos.
  inversion H1 as [| | | | |? ? ? st2 ? Hq1 H2| | |]; subst; clear H1.
  inversion Hq1 as [|? q1 s1 ? Hr1 Hc1| | | | | | |]; subst; clear Hq1.
  simpl in Hr1. subst s.
  inversion H2 as [| | | | |? ? ? st3 ? Hg H3| | |]; subst; clear H2.
  inversion Hg as [| | | | | |? ? st4 Hrep| |]; subst; clear Hg.
  inversion Hrep as [| |? ? ? n ? Hmin Hlen Hall| | | | | |]; subst; clear Hrep.
  inversion H3 as [| | | | |? ? ? st5 ? Hq2 H4| | |]; subst; clear H3.
  inversion Hq2 as [|? q2 s2 ? Hr2 Hc2| | | | | | |]; subst; clear Hq2.
  simpl in *. rewrite Nat.sub_0_r in H4.
  assert (Hgrp : grp res = Some (firstn n s1)).
  { rewrite (keeps_group H4 eq_refl). reflexivity. }
  unfold group1. rewrite Hgrp.
  exists q1, q2, s2. split; [|split; [exact Hc1|split; [exact Hc2|split]]];
    auto.
  - f_equal. rewrite <- Hr2. now rewrite firstn_skipn.
  - intros E. apply (f_equal (@length ascii)) in E.
    rewrite length_firstn in E. simpl in E. lia.
Qed.

(** X2: a line contributes only what stands between two quote characters
    at its beginning.  When a line of a multi-line body gives an item, the
    line without its surrounding white space is a quote character, the
    item, a quote character and a rest; the item is not empty and holds
    no line break. *)
Theorem line_item_between_quotes (line item : str) :
  line_item line = Some item ->
  exists q1 q2 tail,
    Py.strip line = q1 :: item ++ q2 :: tail
    /\ cls_mem quotes q1 = true /\ cls_mem quotes q2 = true
    /\ item <> [] /\ no_newline item = true.
Proof.
  unfold line_item. destruct (_ || _); [discriminate|].
  destruct (re_match line_pattern (Py.strip line)) eqn:E; [|discriminate].
  intros [= <-]. apply match_at_sound in E.
  exact (line_pattern_shape E).
Qed.

(** The line of the example. *)
Lemma line_item_between_quotes_witness :
  exists q1 q2 tail,
    Py.strip role_line = q1 :: role_inner ++ q2 :: tail
    /\ cls_mem quotes q1 = true /\ cls_mem quotes q2 = true
    /\ role_inner <> [] /\ no_newline role_inner = true.
Proof.
  apply (@line_item_between_quotes role_line role_inner). reflexivity.
Defined.

Lemma split_length sep s : length (Py.split sep s) = S (Py.count sep s).
Proof.
  unfold Py.count. induction s as [|a s IH]; simpl; [reflexivity|].
  destruct (Ascii.eqb_spec a sep) as [->|Hne].
  - simpl. rewrite IH. destruct (ascii_dec sep sep); congruence.
  - destruct (ascii_dec a sep); [congruence|].
    destruct (Py.split sep s); simpl in *; congruence.
Qed.

Lemma collect_lines_length body :
  length (collect_lines body) <= S (Py.count newline body).
Proof.
  rewrite collect_lines_eq, <- split_length.
  induction (Py.split newline body) as [|line lines IH]; simpl; [lia|].
  rewrite length_app. destruct (line_item line); simpl; lia.
Qed.

Lemma count_substring a (x s : str) :
  substring x s -> Py.count a x <= Py.count a s.
Proof.
  intros (u & v & ->). unfold Py.count. rewrite !count_occ_app. lia.
Qed.

(** X3: [extract_js_array_simple] reads at most one item from a line.
    The number of strings it returns for a name (an identifier) is at
    most one more than the number of line breaks in the text, so an array
    written on one line gives at most one string. *)
Theorem simple_one_item_per_line (name content : str) :
  identifier name = true ->
  length (extract_js_array_simple name content)
  <= S (Py.count newline content).
Proof.
  intros _. unfold extract_js_array_simple.
  destruct (re_search (simple_pattern name) content) as [m|] eqn:E;
    [|simpl; lia].
  etransitivity; [apply collect_lines_length|].
  apply le_n_S, count_substring. exact (search_group1_sub _ _ E).
Qed.

(** Two items on one line come out as one string. *)
Lemma simple_one_item_per_line_witness :
  extract_js_array_simple (lit_of "xs") one_line_simple = [ lit_of "a', 'b" ]
  /\ length (extract_js_array_simple (lit_of "xs") one_line_simple) <= 1.
Proof.
  split; [reflexivity|].
  apply (@simple_one_item_per_line (lit_of "xs") one_line_simple).
  reflexivity.
Defined.

(* ================================================================== *)
(** ** Declarations in general                                          *)
(* ================================================================== *)

Module CaptureFacts.
Import PyFacts ReFacts ReSteps ExtractFacts DeclFacts.

#[local] Arguments Ascii.eqb : simpl never.
#[local] Arguments Py.isspace : simpl never.

Lemma run_opt_take r k st res :
  run r k st = Some res -> run (Opt r) k st = Some res.
Proof. simpl; now intros ->. Qed.

(** The lazy body stops where the rest of the pattern first succeeds. *)
Lemma grp_lazy_capture R k body tail p g res :
  (forall a1 x a2 g', body = a1 ++ x :: a2 ->
     run R k (MState (p + length a1) (x :: a2 ++ tail) g') = None) ->
  run R k (MState (p + length body) tail (Some body)) = Some res ->
  run (Grp (Rep Any 0 false)) (run R k) (MState p (body ++ tail) g)
  = Some res.
Proof.
  intros Hfail Hend. rewrite run_grp_lazy.
  apply rep_lazy_first; [apply forallb_any | lia | |].
  - intros a1 x a2 Hsplit _. unfold set_grp; cbn [pos rest grp].
    now apply Hfail.
  - unfold set_grp; cbn [pos rest grp].
    replace (p + length body - p) with (length body) by lia.
    now rewrite firstn_length_app.
Qed.

(** The character after a bracket inside a safe body. *)
Lemma bracket_safe_next closer a1 a2 (tail : str) y rest' :
  bracket_safe closer (a1 ++ "]"%char :: a2) = true ->
  closer "]"%char = false ->
  a2 ++ "]"%char :: tail = y :: rest' ->
  closer y = false.
Proof.
  intros Hsafe Hclose Hy.
  induction a1 as [|c a1 IH].
  - destruct a2 as [|b a2]; simpl in Hy.
    + now injection Hy as <- _.
    + injection Hy as <- _. simpl in Hsafe.
      apply andb_true_iff in Hsafe as [H _].
      apply negb_true_iff in H. exact H.
  - apply IH.
    change ((c :: a1) ++ "]"%char :: a2)
      with (c :: (a1 ++ "]"%char :: a2)) in Hsafe.
    simpl in Hsafe. apply andb_true_iff in Hsafe as [_ H]. exact H.
Qed.

Lemma startswith_cons_false a p b s :
  Ascii.eqb a b = false -> Py.startswith (a :: p) (b :: s) = false.
Proof. simpl; now intros ->. Qed.

(** Before the body: the keyword, the name, the equals sign. *)
Lemma assign_prefix kw name ws1 ws2 R text (Q : mstate -> Prop) p :
  forallb Py.isspace ws1 = true -> forallb Py.isspace ws2 = true ->
  stops Space text = true ->
  (forall p', exists res, run R Some (MState p' text None) = Some res /\ Q res) ->
  exists res,
    match_at (Seq (Lit kw) (Seq (Lit name) (assign_open R))) p
      (kw ++ name ++ ws1 ++ lit_of "=" ++ ws2 ++ text)
    = Some res /\ Q res.
Proof.
  intros Hws1 Hws2 Hstop HR.
  destruct (HR (p + length kw + length name + length ws1
                + length (lit_of "=") + length ws2)) as (res & Hres & HQ).
  exists res. split; [|exact HQ].
  unfold match_at, assign_open.
  rewrite run_seq, run_lit_app, run_seq, run_lit_app.
  rewrite run_seq, run_rep_greedy.
  apply rep_greedy_max; [exact Hws1 | reflexivity | simpl; lia |].
  rewrite run_seq, run_lit_app, run_seq, run_rep_greedy.
  apply rep_greedy_max; [exact Hws2 | exact Hstop | simpl; lia |].
  exact Hres.
Qed.

Lemma run_cls_app c k p a s g :
  cls_mem c a = true ->
  run (Cls c) k (MState p ([a] ++ s) g) = k (MState (p + 1) s g).
Proof. apply run_cls_cons. Qed.

(** The join call, when there is one, is read and dropped. *)
Lemma join_call_read call k p post g res :
  join_ok call = true ->
  (forall p', k (MState p' post g) = Some (res p')) ->
  exists p',
    run (Opt (Seq (Lit (lit_of ".join(")) (Seq (Cls quotes)
           (Seq (Opt (Lit (lit_of ","))) (Seq (Cls quotes)
              (Lit (lit_of ")")))))))
        (run (Lit (lit_of ";")) k)
        (MState p (join_call call ++ lit_of ";" ++ post) g)
    = Some (res p').
Proof.
  intros Hok Hk. destruct call as [[[q1 comma] q2]|]; unfold join_call.
  - simpl in Hok. apply andb_true_iff in Hok as [Hq1 Hq2].
    destruct comma; eexists; apply run_opt_take;
      rewrite <- !app_assoc;
      rewrite run_seq, run_lit_app, run_seq;
      rewrite run_cls_app by exact Hq1;
      rewrite run_seq.
    + apply run_opt_take. rewrite run_lit_app, run_seq.
      rewrite run_cls_app by exact Hq2.
      rewrite run_lit_app, run_lit_app. apply Hk.
    + rewrite run_opt_skip.
      * rewrite run_seq, app_nil_l.
        rewrite run_cls_app by exact Hq2.
        rewrite run_lit_app, run_lit_app. apply Hk.
      * apply run_lit_fail. cbn [rest]. rewrite app_nil_l.
        apply (@startswith_cons_false ","%char [] q2).
        revert Hq2. unfold quotes; simpl; unfold mem; simpl.
        destruct (Ascii.eqb_spec q2 squote) as [->|]; [reflexivity|].
        destruct (Ascii.eqb_spec q2 dquote) as [->|];
          [reflexivity|discriminate].
  - eexists. rewrite app_nil_l.
    rewrite run_opt_skip by (apply lit_seq_fail; reflexivity).
    rewrite run_lit_app. apply Hk.
Qed.

(** The bracket form from the opening bracket on. *)
Lemma array_tail body call post p :
  bracket_safe array_closer body = true -> join_ok call = true ->
  exists res,
    run (Seq (Lit (lit_of "[")) (Seq (Grp (Rep Any 0 false))
          (Seq (Lit (lit_of "]"))
            (Seq (Opt (Seq (Lit (lit_of ".join(")) (Seq (Cls quotes)
                    (Seq (Opt (Lit (lit_of ","))) (Seq (Cls quotes)
                       (Lit (lit_of ")")))))))
                 (Lit (lit_of ";"))))))
        Some
        (MState p (lit_of "[" ++ body ++ lit_of "]" ++ join_call call
                   ++ lit_of ";" ++ post) None)
    = Some res /\ grp res = Some body.
Proof.
  intros Hsafe Hok.
  destruct (@join_call_read call Some
              (p + length (lit_of "[") + length body + length (lit_of "]"))
              post (Some body) (fun p' => MState p' post (Some body)) Hok)
    as [p' Hjoin]; [reflexivity|].
  exists (MState p' post (Some body)). split; [|reflexivity].
  rewrite run_seq, run_lit_app, run_seq.
  apply grp_lazy_capture.
  - intros a1 x a2 g' Hsplit.
    destruct (Ascii.eqb_spec "]"%char x) as [<-|Hx].
    + change ("]"%char :: a2 ++ lit_of "]" ++ join_call call
              ++ lit_of ";" ++ post)
        with (lit_of "]" ++ a2 ++ "]"%char :: join_call call
              ++ lit_of ";" ++ post).
      rewrite run_seq, run_lit_app, run_seq.
      destruct (a2 ++ "]"%char :: join_call call ++ lit_of ";" ++ post)
        as [|y rest'] eqn:Ey; [now destruct a2|].
      assert (Hy : array_closer y = false).
      { subst body.
        exact (@bracket_safe_next array_closer a1 a2 _ y rest'
                 Hsafe eq_refl Ey). }
      unfold array_closer in Hy. apply orb_false_iff in Hy as [Hy1 Hy2].
      rewrite run_opt_skip.
      * apply run_lit_fail. cbn [rest].
        exact (@startswith_cons_false ";"%char [] y rest' Hy1).
      * apply lit_seq_fail. cbn [rest].
        exact (@startswith_cons_false "."%char (lit_of "join(") y rest' Hy2).
    + apply lit_seq_fail. cbn [rest].
      apply (@startswith_cons_false "]"%char [] x).
      now apply Ascii.eqb_neq.
  - rewrite run_seq, run_lit_app, run_seq. exact Hjoin.
Qed.

(** The Set form and the simple form from the opening text on: the body
    ends at the first bracket that the closing character follows. *)
Lemma bracket_lit_tail c opener body post p :
  bracket_safe (Ascii.eqb c) body = true -> Ascii.eqb c "]"%char = false ->
  exists res,
    run (Seq (Lit opener) (Seq (Grp (Rep Any 0 false)) (Lit ["]"%char; c])))
        Some (MState p (opener ++ body ++ ["]"%char; c] ++ post) None)
    = Some res /\ grp res = Some body.
Proof.
  intros Hsafe Hc. eexists. split.
  - rewrite run_seq, run_lit_app.
    apply grp_lazy_capture.
    + intros a1 x a2 g' Hsplit. apply run_lit_fail. cbn [rest].
      destruct (Ascii.eqb_spec "]"%char x) as [<-|Hx].
      * destruct (a2 ++ "]"%char :: c :: post) as [|y rest'] eqn:Ey;
          [now destruct a2|].
        assert (Hy : Ascii.eqb c y = false).
        { subst body.
          exact (@bracket_safe_next (Ascii.eqb c) a1 a2 _ y rest'
                   Hsafe Hc Ey). }
        change (a2 ++ ["]"%char; c] ++ post)
          with (a2 ++ "]"%char :: c :: post).
        rewrite Ey. simpl. rewrite Hy. reflexivity.
      * apply startswith_cons_false. now apply Ascii.eqb_neq.
    + rewrite run_lit_app. reflexivity.
  - reflexivity.
Qed.

Lemma offsets_from_first p s : forall i0 n,
  hd_error (offsets_from p i0 s) = Some n ->
  forall j, i0 + j < n -> Py.startswith p (skipn j s) = false.
Proof.
  induction s as [|a s IH]; intros i0 n; simpl.
  - destruct (Py.startswith p []); simpl; [|discriminate].
    intros [= <-] j Hj. lia.
  - destruct (Py.startswith p (a :: s)) eqn:E; simpl.
    + intros [= <-] j Hj. lia.
    + intros H [|j] Hj; [exact E|].
      simpl. apply (IH (S i0) n H). lia.
Qed.

(** Before the first offset at which a text starts, it does not start. *)
Lemma offsets_first p s n i :
  hd_error (offsets p s) = Some n -> i < n ->
  Py.startswith p (skipn i s) = false.
Proof. intros H Hi. exact (offsets_from_first p s 0 H i Hi). Qed.

(** A search for a pattern that begins with two literals starts where
    their concatenation first starts. *)
Lemma search_at_first a b r (pre text : str) res :
  hd_error (offsets (a ++ b) (pre ++ text)) = Some (length pre) ->
  match_at (Seq (Lit a) (Seq (Lit b) r)) (0 + length pre) text = Some res ->
  re_search (Seq (Lit a) (Seq (Lit b) r)) (pre ++ text) = Some res.
Proof.
  intros Hfirst Hm. unfold re_search.
  rewrite (@search_from_skip _ _ (length pre) 0).
  - rewrite skipn_length_app. now apply search_from_here.
  - rewrite length_app. lia.
  - intros i Hi. apply lit2_fail. cbn [rest].
    exact (offsets_first _ _ Hfirst Hi).
Qed.

End CaptureFacts.
Import CaptureFacts.

(** X4: the first declaration of a name in the bracket form is the one
    that is read.  When the text [export const name] first starts at the
    declaration, whose body holds no closing bracket directly followed by
    a semicolon or a dot, [extract_array] returns the items of that body,
    whatever white space surrounds the equals sign, with or without a
    join call after the bracket, and whatever follows the declaration. *)
Theorem bracket_declaration_extracted
        (name pre ws1 ws2 body : str) (call : option (ascii * bool * ascii))
        (post : str) :
  let content := pre ++ bracket_decl name ws1 ws2 body call ++ post in
  identifier name = true ->
  forallb Py.isspace ws1 = true -> forallb Py.isspace ws2 = true ->
  bracket_safe array_closer body = true -> join_ok call = true ->
  hd_error (offsets (lit_of "export const " ++ name) content)
  = Some (length pre) ->
  extract_array name content = array_items body.
Proof.
  intros content _ Hws1 Hws2 Hsafe Hok Hfirst.
  destruct (@assign_prefix (lit_of "export const ") name ws1 ws2 _
              (lit_of "[" ++ body ++ lit_of "]" ++ join_call call
               ++ lit_of ";" ++ post)
              (fun res => grp res = Some body) (0 + length pre)
              Hws1 Hws2 eq_refl
              (fun p' => @array_tail body call post p' Hsafe Hok))
    as (res & Hres & Hg).
  assert (Hs : re_search (array_pattern name) content = Some res).
  { unfold content, bracket_decl in *. unfold array_pattern.
    rewrite <- !app_assoc. rewrite <- !app_assoc in Hfirst.
    apply search_at_first; [exact Hfirst | exact Hres]. }
  unfold extract_array, find_array. rewrite Hs.
  unfold group1. now rewrite Hg.
Qed.

(** An attribute selector in the body, a join call after it, a second
    declaration behind it. *)
Lemma bracket_declaration_extracted_witness :
  extract_array (lit_of "SEL")
    (sel_pre
     ++ bracket_decl (lit_of "SEL") (lit_of " ") sel_ws2 sel_body
          (Some (squote, true, squote))
     ++ sel_post)
  = [ sel_item; lit_of "b" ].
Proof.
  rewrite (@bracket_declaration_extracted (lit_of "SEL") sel_pre
             (lit_of " ") sel_ws2 sel_body (Some (squote, true, squote))
             sel_post); reflexivity.
Defined.

(** X5: the Set form is read when the bracket form is not there.  When
    the bracket pattern matches nowhere, and the text [export const name]
    first starts at a declaration in the Set form whose body holds no
    closing bracket directly followed by a closing parenthesis,
    [extract_array] returns the items of that body, whatever follows. *)
Theorem set_declaration_extracted (name pre ws1 ws2 body post : str) :
  let content := pre ++ set_decl name ws1 ws2 body ++ post in
  identifier name = true ->
  forallb Py.isspace ws1 = true -> forallb Py.isspace ws2 = true ->
  bracket_safe set_closer body = true ->
  ~ occurs (array_pattern name) content ->
  hd_error (offsets (lit_of "export const " ++ name) content)
  = Some (length pre) ->
  extract_array name content = array_items body.
Proof.
  intros content _ Hws1 Hws2 Hsafe Hno Hfirst.
  destruct (@assign_prefix (lit_of "export const ") name ws1 ws2 _
              (lit_of "new Set([" ++ body ++ lit_of "])" ++ post)
              (fun res => grp res = Some body) (0 + length pre)
              Hws1 Hws2 eq_refl
              (fun p' => @bracket_lit_tail ")"%char (lit_of "new Set([")
                           body post p' Hsafe eq_refl))
    as (res & Hres & Hg).
  assert (Hs : re_search (set_pattern name) content = Some res).
  { unfold content, set_decl in *. unfold set_pattern.
    rewrite <- !app_assoc. rewrite <- !app_assoc in Hfirst.
    apply search_at_first; [exact Hfirst | exact Hres]. }
  apply re_search_none in Hno.
  unfold extract_array, find_array. rewrite Hno, Hs.
  unfold group1. now rewrite Hg.
Qed.

(** A Set over three lines, with a comment and an index in an item. *)
Lemma set_declaration_extracted_witness :
  extract_array (lit_of "TAGS")
    (sel_pre
     ++ set_decl (lit_of "TAGS") (lit_of " ") (lit_of " ") tags_body
     ++ tags_post)
  = [ lit_of "a"; lit_of "b[0]" ].
Proof.
  rewrite (@set_declaration_extracted (lit_of "TAGS") sel_pre
             (lit_of " ") (lit_of " ") tags_body tags_post);
    try reflexivity.
  apply re_search_none. reflexivity.
Defined.

(** X6: the first declaration of a name in the simple form is the one
    [extract_js_array_simple] reads.  When the text [const name] first
    starts at the declaration, whose body holds no closing bracket
    directly followed by a semicolon, the function returns what the lines
    of that body give, whatever precedes the word [const] and whatever
    follows the declaration. *)
Theorem simple_declaration_extracted (name pre ws1 ws2 body post : str) :
  let content := pre ++ simple_decl name ws1 ws2 body ++ post in
  identifier name = true ->
  forallb Py.isspace ws1 = true -> forallb Py.isspace ws2 = true ->
  bracket_safe simple_closer body = true ->
  hd_error (offsets (lit_of "const " ++ name) content) = Some (length pre) ->
  extract_js_array_simple name content = collect_lines body.
Proof.
  intros content _ Hws1 Hws2 Hsafe Hfirst.
  destruct (@assign_prefix (lit_of "const ") name ws1 ws2 _
              (lit_of "[" ++ body ++ lit_of "];" ++ post)
              (fun res => grp res = Some body) (0 + length pre)
              Hws1 Hws2 eq_refl
              (fun p' => @bracket_lit_tail ";"%char (lit_of "[")
                           body post p' Hsafe eq_refl))
    as (res & Hres & Hg).
  assert (Hs : re_search (simple_pattern name) content = Some res).
  { unfold content, simple_decl in *. unfold simple_pattern.
    rewrite <- !app_assoc. rewrite <- !app_assoc in Hfirst.
    apply search_at_first; [exact Hfirst | exact Hres]. }
  unfold extract_js_array_simple. rewrite Hs.
  unfold group1. now rewrite Hg.
Qed.

(** An exported array: the word [export] stands before [const]. *)
Lemma simple_declaration_extracted_witness :
  extract_js_array_simple (lit_of "xs")
    (lit_of "export "
     ++ simple_decl (lit_of "xs") (lit_of " ") (lit_of " ") xs_body
     ++ xs_post)
  = [ lit_of "x[1]"; lit_of "y" ].
Proof.
  rewrite (@simple_declaration_extracted (lit_of "xs") (lit_of "export ")
             (lit_of " ") (lit_of " ") xs_body xs_post); reflexivity.
Defined.

Module NameFacts.
Import PyFacts ReFacts ReSteps DeclFacts CaptureFacts.

#[local] Arguments Ascii.eqb : simpl never.
#[local] Arguments Py.isspace : simpl never.

Lemma word_char_not_space c : word_char c = true -> Py.isspace c = false.
Proof.
  destruct c as [[] [] [] [] [] [] [] []]; intros H;
    try reflexivity; discriminate H.
Qed.

Lemma word_char_not_equals c :
  word_char c = true -> Ascii.eqb "="%char c = false.
Proof.
  destruct c as [[] [] [] [] [] [] [] []]; intros H;
    try reflexivity; discriminate H.
Qed.

(** Where a word goes on after the name, the equals sign cannot follow. *)
Lemma assign_open_continued R k p text g :
  match text with c :: _ => word_char c = true | [] => True end ->
  run (assign_open R) k (MState p text g) = None.
Proof.
  intros H. unfold assign_open. rewrite run_seq, run_rep_greedy.
  destruct text as [|c text]; simpl rep_greedy.
  - reflexivity.
  - rewrite (word_char_not_space _ H). simpl.
    now rewrite (word_char_not_equals _ H).
Qed.

Lemma continued_no_match kw name R (s : str) :
  continued (kw ++ name) s = true ->
  re_search (Seq (Lit kw) (Seq (Lit name) (assign_open R))) s = None.
Proof.
  intros Hcont. apply search_from_none. intros i Hi.
  unfold match_at.
  destruct (Py.startswith (kw ++ name) (skipn i s)) eqn:E;
    [|now apply lit2_fail].
  assert (Hin : In i (offsets (kw ++ name) s)).
  { apply offsets_from_spec. exists i; auto. }
  unfold continued in Hcont. rewrite forallb_forall in Hcont.
  specialize (Hcont i Hin). cbv beta in Hcont.
  apply startswith_split in E.
  rewrite skipn_skipn in E.
  replace (length (kw ++ name) + i) with (i + length (kw ++ name)) in E by lia.
  destruct (skipn (i + length (kw ++ name)) s) as [|c tail] eqn:Et;
    rewrite E, <- app_assoc;
    rewrite run_seq, run_lit_app, run_seq, run_lit_app;
    apply assign_open_continued; [exact I | exact Hcont].
Qed.

End NameFacts.
Import NameFacts.

(** X7: a name is not found in a longer name.  When, wherever the text
    [export const name] starts, a letter, a digit or an underscore
    follows, [extract_array] returns nothing for the name; and the same
    for [extract_js_array_simple] and the text [const name]. *)
Theorem longer_name_not_read (name content scoring_content : str) :
  identifier name = true ->
  continued (lit_of "export const " ++ name) content = true ->
  continued (lit_of "const " ++ name) scoring_content = true ->
  extract_array name content = []
  /\ extract_js_array_simple name scoring_content = [].
Proof.
  intros _ H1 H2.
  unfold extract_array, find_array, extract_js_array_simple.
  unfold array_pattern, set_pattern, simple_pattern.
  now rewrite !continued_no_match.
Qed.

(** The name ENTRY_POINT is not the name ENTRY_POINT_ELEMENTS. *)
Lemma longer_name_not_read_witness :
  extract_array (lit_of "ENTRY_POINT") entry_decl = []
  /\ extract_js_array_simple (lit_of "ENTRY_POINT") entry_decl = [].
Proof.
  apply longer_name_not_read; reflexivity.
Defined.

(* ================================================================== *)
(** ** Bodies on the single-line path                                   *)
(* ================================================================== *)

Module FindallFacts.
Import PyFacts ReFacts ReSteps.

#[local] Arguments Ascii.eqb : simpl never.

Lemma eqb_flip a b : Ascii.eqb a b = Ascii.eqb b a.
Proof.
  destruct (Ascii.eqb_spec a b) as [->|H].
  - now rewrite Ascii.eqb_refl.
  - symmetry. apply Ascii.eqb_neq. congruence.
Qed.

Lemma run_grp_greedy c min k p s g :
  run (Grp (Rep c min true)) k (MState p s g)
  = rep_greedy c min
      (fun st' => k (set_grp (firstn (pos st' - p) s) st')) p s g.
Proof. reflexivity. Qed.

Lemma free_of_class q s :
  free_of q s = true -> forallb (cls_mem (NoneOf [q])) s = true.
Proof.
  unfold free_of. rewrite !forallb_forall. intros H a Ha.
  simpl. unfold mem. simpl. rewrite orb_false_r. now apply H.
Qed.

(** The pattern on a literal: it reads the literal and captures what is
    between the quotes. *)
Lemma quoted_at q item tail p :
  item <> [] -> free_of q item = true ->
  match_at (quoted q) p (q :: item ++ q :: tail)
  = Some (MState (p + 1 + length item + 1) tail (Some item)).
Proof.
  intros Hne Hfree. unfold match_at, quoted.
  change (q :: item ++ q :: tail) with ([q] ++ item ++ q :: tail).
  rewrite run_seq, run_lit_app, run_seq, run_grp_greedy.
  apply rep_greedy_max.
  - now apply free_of_class.
  - simpl. unfold mem. simpl. now rewrite Ascii.eqb_refl.
  - destruct item; [congruence | simpl; lia].
  - unfold set_grp; cbn [pos rest grp].
    change (q :: tail) with ([q] ++ tail).
    rewrite run_lit_app.
    replace (p + length [q] + length item - (p + length [q]))
      with (length item) by lia.
    now rewrite firstn_length_app.
Qed.

Lemma quoted_not_at q c s p :
  Ascii.eqb c q = false -> match_at (quoted q) p (c :: s) = None.
Proof.
  intros H. unfold match_at, quoted. apply lit_seq_fail. cbn [rest].
  simpl. now rewrite eqb_flip, H.
Qed.

Lemma quoted_not_at_end q p : match_at (quoted q) p [] = None.
Proof. reflexivity. Qed.

(** Stepping over the characters of the last match. *)
Lemma findall_skip r a s : forall p,
  findall_from r (length a) p (a ++ s) = findall_from r 0 (p + length a) s.
Proof.
  induction a as [|x a IH]; intros p; simpl.
  - now rewrite Nat.add_0_r.
  - rewrite IH. now rewrite Nat.add_succ_r.
Qed.

(** Text without the quote gives nothing. *)
Lemma findall_free q lead s : forall p,
  free_of q lead = true ->
  findall_from (quoted q) 0 p (lead ++ s)
  = findall_from (quoted q) 0 (p + length lead) s.
Proof.
  induction lead as [|c lead IH]; intros p Hfree; simpl app.
  - simpl. now rewrite Nat.add_0_r.
  - simpl in Hfree. apply andb_true_iff in Hfree as [Hc Hfree].
    apply negb_true_iff in Hc.
    cbn [findall_from]. rewrite (@quoted_not_at q c _ p Hc).
    rewrite IH by exact Hfree. simpl. now rewrite Nat.add_succ_r.
Qed.

Lemma findall_rendered q items : forall lead p,
  free_of q lead = true -> items_ok q items = true ->
  findall_from (quoted q) 0 p (render_items q lead items) = map fst items.
Proof.
  induction items as [|[item sep] items IH]; intros lead p Hlead Hok;
    unfold render_items; simpl flat_map.
  - rewrite findall_free by exact Hlead. reflexivity.
  - simpl in Hok. apply andb_true_iff in Hok as [Hit Hok].
    apply andb_true_iff in Hit as [Hit Hsep].
    apply andb_true_iff in Hit as [Hne Hfree].
    rewrite findall_free by exact Hlead. simpl fst; simpl snd.
    rewrite <- app_assoc. simpl app.
    cbn [findall_from].
    rewrite quoted_at; [|destruct item; [discriminate|congruence]|exact Hfree].
    cbn [group1 grp pos]. simpl map. f_equal.
    replace (p + length lead + 1 + length item + 1 - (p + length lead) - 1)
      with (length (item ++ [q])) by (rewrite length_app; simpl; lia).
    change (item ++ q :: sep ++ flat_map
              (fun it => q :: fst it ++ q :: snd it) items)
      with (item ++ [q] ++ render_items q sep items).
    rewrite app_assoc, findall_skip.
    now apply IH.
Qed.

Lemma findall_none q s :
  free_of q s = true -> re_findall (quoted q) s = [].
Proof.
  intros H. unfold re_findall.
  rewrite <- (app_nil_r s). rewrite findall_free by exact H. reflexivity.
Qed.

End FindallFacts.
Import FindallFacts.

(** X8: on the single-line path the single-quoted literals come out in
    their order.  For a body written as single-quoted items, none empty,
    with any text free of single quotes before, between and after them,
    and read as a single line, [array_items] is the list of the items. *)
Theorem single_line_items_in_order (lead : str) (items : list (str * str)) :
  let body := render_items squote lead items in
  items <> [] ->
  free_of squote lead = true -> items_ok squote items = true ->
  single_line body = true ->
  array_items body = map fst items.
Proof.
  intros body Hne Hlead Hok Hsl.
  unfold array_items, single_line_items. rewrite Hsl.
  change single_quoted with (quoted squote). unfold re_findall.
  unfold body. rewrite findall_rendered by assumption.
  destruct items; [congruence | reflexivity].
Qed.

(** Three items over two lines: six quotes make it a single line. *)
Lemma single_line_items_in_order_witness :
  array_items (render_items squote abc_lead abc_items)
  = [ lit_of "a"; lit_of "b"; lit_of "c" ].
Proof.
  apply (@single_line_items_in_order abc_lead abc_items);
    try reflexivity; discriminate.
Defined.

(** X9: double-quoted literals are read when there is no single quote.
    For a body without any single quote, written as double-quoted items,
    none empty, with any text free of double quotes before, between and
    after them, and read as a single line, [array_items] is the list of
    the items. *)
Theorem double_quoted_fallback (lead : str) (items : list (str * str)) :
  let body := render_items dquote lead items in
  free_of dquote lead = true -> items_ok dquote items = true ->
  free_of squote body = true ->
  single_line body = true ->
  array_items body = map fst items.
Proof.
  intros body Hlead Hok Hfree Hsl.
  unfold array_items, single_line_items. rewrite Hsl.
  change single_quoted with (quoted squote).
  rewrite (findall_none _ _ Hfree).
  change double_quoted with (quoted dquote). unfold re_findall.
  unfold body. now apply findall_rendered.
Qed.

(** Three double-quoted items on one line. *)
Lemma double_quoted_fallback_witness :
  array_items (render_items dquote (lit_of " ") uvw_items)
  = [ lit_of "u"; lit_of "v w"; lit_of "x" ].
Proof.
  apply (@double_quoted_fallback (lit_of " ") uvw_items); reflexivity.
Defined.

(* ================================================================== *)
(** ** Bodies on the line-by-line path                                  *)
(* ================================================================== *)

Module LinesFacts.
Import PyFacts ExtractFacts LineFacts TextFacts.

#[local] Arguments Ascii.eqb : simpl never.

Lemma split_free s : no_newline s = true -> Py.split newline s = [s].
Proof.
  induction s as [|a s IH]; cbn [Py.split]; [reflexivity|].
  intros H. cbn [no_newline forallb] in H.
  apply andb_true_iff in H as [Ha Hs].
  cbn [cls_mem] in Ha. apply negb_true_iff in Ha. rewrite Ha.
  now rewrite (IH Hs).
Qed.

Lemma split_app_free s t :
  no_newline s = true ->
  Py.split newline (s ++ newline :: t) = s :: Py.split newline t.
Proof.
  induction s as [|a s IH]; cbn [app Py.split].
  - intros _. now rewrite Ascii.eqb_refl.
  - intros H. cbn [no_newline forallb] in H.
    apply andb_true_iff in H as [Ha Hs].
    cbn [cls_mem] in Ha. apply negb_true_iff in Ha. rewrite Ha.
    now rewrite (IH Hs).
Qed.

(** Splitting the lines joined by line breaks gives the lines back. *)
Lemma split_join lines :
  lines <> [] -> forallb no_newline lines = true ->
  Py.split newline (Py.join [newline] lines) = lines.
Proof.
  induction lines as [|l lines IH]; intros Hne Hall; [congruence|].
  simpl in Hall. apply andb_true_iff in Hall as [Hl Hall].
  destruct lines as [|l' lines].
  - simpl. now apply split_free.
  - change (Py.join [newline] (l :: l' :: lines))
      with (l ++ newline :: Py.join [newline] (l' :: lines)).
    rewrite split_app_free by exact Hl.
    rewrite IH; [reflexivity | discriminate | exact Hall].
Qed.

Lemma render_line_free l : line_ok l = true -> no_newline (render_line l) = true.
Proof.
  destruct l as [indent q1 inner q2 comma ws comment|text]; simpl.
  - intros H. repeat (apply andb_true_iff in H as [H ?]).
    unfold no_newline in *. rewrite forallb_app. simpl.
    rewrite forallb_app. simpl. unfold trailer. rewrite !forallb_app.
    repeat (apply andb_true_iff; split); auto.
    + destruct (Ascii.eqb_spec q1 newline) as [->|]; [discriminate|reflexivity].
    + destruct (Ascii.eqb_spec q2 newline) as [->|]; [discriminate|reflexivity].
    + now destruct comma.
    + destruct comment as [text|]; [|reflexivity]. simpl in *. assumption.
  - intros H. apply andb_true_iff in H as [H _]. exact H.
Qed.

Lemma line_item_rendered l :
  line_ok l = true -> item_list (line_item (render_line l)) = contributed l.
Proof.
  destruct l as [indent q1 inner q2 comma ws comment|text]; simpl.
  - intros H. repeat (apply andb_true_iff in H as [H ?]).
    rewrite line_item_literal; auto.
    destruct inner; [discriminate|congruence].
  - intros H. apply andb_true_iff in H as [_ H].
    rewrite line_item_skipped; [reflexivity|].
    apply orb_true_iff in H as [H|H]; [left|now right].
    destruct (Py.strip text); [reflexivity|discriminate].
Qed.

End LinesFacts.
Import LinesFacts.

(** X10: a multi-line body gives the literals of its lines, in order.
    For a body made of lines joined by line breaks, each line a
    well-formed literal line or a blank or comment line, the loop over
    the lines returns the contents of the literals, top to bottom; blank
    lines and comments between them change nothing. *)
Theorem collect_lines_of_lines (lines : list body_line) :
  lines <> [] ->
  forallb line_ok lines = true ->
  collect_lines (Py.join [newline] (map render_line lines))
  = flat_map contributed lines.
Proof.
  intros Hne Hok. rewrite collect_lines_eq, split_join.
  - rewrite forallb_forall in Hok.
    induction lines as [|l lines IH]; [reflexivity|]. simpl.
    rewrite line_item_rendered by (apply Hok; now left).
    destruct lines as [|l' lines]; [reflexivity|].
    rewrite IH; [reflexivity | discriminate |].
    intros x Hx. apply Hok. now right.
  - destruct lines; [congruence | discriminate].
  - rewrite forallb_forall in *. intros s Hs.
    apply in_map_iff in Hs as (l & <- & Hl).
    apply render_line_free. now apply Hok.
Qed.

(** Two literals among a blank line and a comment. *)
Lemma collect_lines_of_lines_witness :
  collect_lines (Py.join [newline] (map render_line xs_lines))
  = [ lit_of "x[1]"; lit_of "y" ].
Proof.
  apply (@collect_lines_of_lines xs_lines); [discriminate | reflexivity].
Defined.

(* ================================================================== *)
(** ** Further properties of the categorizer                            *)
(* ================================================================== *)

Module BucketFacts.
Import PyFacts CatFacts TextFacts.

Lemma bucket_of_split table text c :
  first_category table text = Some c ->
  forall c1 kws1, In (c1, kws1) table -> any_keyword kws1 text = true ->
  exists before after,
    map fst table = before ++ c1 :: after /\ In c (before ++ [c1]).
Proof.
  intros Hfirst c1 kws1 Hin Hk.
  destruct (first_category_split _ _ Hfirst)
    as (b & kws & a & -> & _ & Hb).
  apply in_app_or in Hin as [Hin|[Heq|Hin]].
  - rewrite (Hb _ _ Hin) in Hk. discriminate.
  - injection Heq as <- <-. exists (map fst b), (map fst a). split.
    + now rewrite map_app.
    + apply in_or_app. right. now left.
  - apply in_split in Hin as (a1 & a2 & ->).
    exists (map fst b ++ c :: map fst a1), (map fst a2). split.
    + rewrite !map_app. simpl. rewrite map_app. simpl.
      now rewrite <- app_assoc.
    + apply in_or_app. left. apply in_or_app. right. now left.
Qed.

Lemma bucket_of_found selector c kws :
  In (c, kws) category_keywords ->
  keyword_in kws (Py.lower selector) ->
  first_category category_keywords (Py.lower selector)
  = Some (bucket_of selector).
Proof.
  intros Hin Hk. unfold bucket_of.
  destruct (first_category category_keywords (Py.lower selector)) eqn:E;
    [reflexivity|].
  apply any_keyword_true in Hk.
  rewrite (proj1 (first_category_none _ _) E c kws Hin) in Hk. discriminate.
Qed.

Lemma members_app l1 l2 k : members (l1 ++ l2) k = members l1 k ++ members l2 k.
Proof. unfold members. apply filter_app. Qed.

Lemma bucket_buckets f names k :
  bucket (filter (fun kv => nonempty (snd kv))
                 (map (fun n => (n, f n)) names)) k
  = if existsb (str_eqb k) names then f k else [].
Proof.
  induction names as [|n names IH]; simpl; [reflexivity|].
  destruct (f n) as [|x l] eqn:Efn; simpl.
  - rewrite IH. destruct (str_eqb k n) eqn:E; simpl; [|reflexivity].
    apply str_eqb_eq in E. subst n. rewrite Efn.
    now destruct (existsb (str_eqb k) names).
  - destruct (str_eqb n k) eqn:E.
    + apply str_eqb_eq in E. subst n. rewrite str_eqb_refl. simpl.
      now rewrite Efn.
    + rewrite IH. destruct (str_eqb k n) eqn:E'; simpl; [|reflexivity].
      apply str_eqb_eq in E'. subst n. rewrite str_eqb_refl in E.
      discriminate.
Qed.

Lemma bucket_categorize selectors k :
  bucket (categorize_partial_selectors selectors) k
  = if existsb (str_eqb k) bucket_names then members selectors k else [].
Proof. rewrite categorize_eq. unfold buckets. apply bucket_buckets. Qed.

Lemma lower_char_idem a : Py.lower_char (Py.lower_char a) = Py.lower_char a.
Proof. destruct a as [[] [] [] [] [] [] [] []]; reflexivity. Qed.

Lemma lower_idem s : Py.lower (Py.lower s) = Py.lower s.
Proof.
  unfold Py.lower. rewrite map_map. apply map_ext. apply lower_char_idem.
Qed.

End BucketFacts.
Import BucketFacts.

(** X11: a keyword bounds the bucket.  When a keyword of a category
    occurs in the lower-cased selector, the selector is filed under that
    category or under one listed before it, and never under misc. *)
Theorem keyword_bounds_bucket
        (selectors : list str) (s k : str) (b : list str)
        (c : str) (keywords : list str) :
  In (c, keywords) category_keywords ->
  keyword_in keywords (Py.lower s) ->
  In (k, b) (categorize_partial_selectors selectors) -> In s b ->
  k <> lit_of "misc"
  /\ exists before after,
       category_order = before ++ c :: after /\ In k (before ++ [c]).
Proof.
  intros Hin Hk Hkb Hs.
  rewrite (@holder_unique selectors s k b Hkb Hs).
  pose proof (@bucket_of_found s c keywords Hin Hk) as Hfirst.
  split.
  - intros E. exact (proj1 (bucket_of_misc s) E c keywords Hin Hk).
  - apply any_keyword_true in Hk.
    exact (@bucket_of_split _ _ _ Hfirst c keywords Hin Hk).
Qed.

(** A selector with [login] and [menu] in it is filed under navigation,
    which is listed before auth. *)
Lemma keyword_bounds_bucket_witness :
  lit_of "navigation" <> lit_of "misc"
  /\ exists before after,
       category_order = before ++ lit_of "auth" :: after
       /\ In (lit_of "navigation") (before ++ [lit_of "auth"]).
Proof.
  apply (@keyword_bounds_bucket [lit_of "Login-Menu"] (lit_of "Login-Menu")
           (lit_of "navigation") [lit_of "Login-Menu"] (lit_of "auth")
           (words ["login"; "sign"; "register"; "access-wall"; "paywall";
                   "gated"])).
  - simpl. auto 20.
  - exists (lit_of "login"). split; [now left|].
    exists [], (lit_of "-menu"). reflexivity.
  - vm_compute. auto.
  - now left.
Defined.

Lemma ad_in_keyword kw : In kw ad_keywords -> substring (lit_of "ad") kw.
Proof.
  intros H. apply contains_iff.
  repeat (destruct H as [<-|H]; [reflexivity|]). destruct H.
Qed.

(** X12: whatever holds [ad] is an ad.  A selector whose lower-cased form
    holds the text [ad] is filed under ads; so the keywords breadcrumb,
    header, masthead, read-next and keep-reading of the later categories
    never decide where a selector goes. *)
Theorem ad_takes_all (selectors : list str) (s k : str) (b : list str) :
  substring (lit_of "ad") (Py.lower s)
  \/ (exists kw, In kw ad_keywords /\ substring kw (Py.lower s)) ->
  In (k, b) (categorize_partial_selectors selectors) -> In s b ->
  k = lit_of "ads".
Proof.
  intros Had Hkb Hs.
  assert (Had' : substring (lit_of "ad") (Py.lower s)).
  { destruct Had as [H|(kw & Hkw & H)]; [exact H|].
    exact (substring_trans (@ad_in_keyword kw Hkw) H). }
  rewrite (@holder_unique selectors s k b Hkb Hs). unfold bucket_of.
  assert (Hk : any_keyword
                 (words ["ad"; "advert"; "promo"; "sponsor"; "banner"])
                 (Py.lower s) = true).
  { apply any_keyword_true. exists (lit_of "ad"). split; [now left|exact Had']. }
  unfold category_keywords. cbn [first_category]. now rewrite Hk.
Qed.

(** A page header is filed under ads. *)
Lemma ad_takes_all_witness :
  fst (hd ([], []) (categorize_partial_selectors [lit_of "Page-Header"]))
  = lit_of "ads".
Proof.
  apply (@ad_takes_all [lit_of "Page-Header"] (lit_of "Page-Header") _
           (snd (hd ([], [])
                    (categorize_partial_selectors [lit_of "Page-Header"])))).
  - right. exists (lit_of "header"). split; [simpl; auto|].
    exists (lit_of "page-"), []. reflexivity.
  - vm_compute. left. reflexivity.
  - vm_compute. left. reflexivity.
Defined.

(** X13: categorizing a concatenation is categorizing the parts.  Each
    bucket of the result for [l1 ++ l2] is the bucket for [l1] followed
    by the bucket for [l2], a bucket that is not listed counting as
    empty. *)
Theorem categorize_app (l1 l2 : list str) (name : str) :
  bucket (categorize_partial_selectors (l1 ++ l2)) name
  = bucket (categorize_partial_selectors l1) name
    ++ bucket (categorize_partial_selectors l2) name.
Proof.
  rewrite !bucket_categorize.
  destruct (existsb (str_eqb name) bucket_names); [|reflexivity].
  apply members_app.
Qed.

Lemma bucket_of_lower s : bucket_of (Py.lower s) = bucket_of s.
Proof. unfold bucket_of. now rewrite lower_idem. Qed.

Lemma members_lower selectors k :
  members (map Py.lower selectors) k = map Py.lower (members selectors k).
Proof.
  unfold members. induction selectors as [|s l IH]; simpl; [reflexivity|].
  rewrite bucket_of_lower, IH.
  now destruct (str_eqb k (bucket_of s)).
Qed.

(** X14: the categorizer does not look at the case of letters.
    Categorizing the lower-cased selectors gives the same buckets, in
    the same order, holding the lower-cased forms of the same
    selectors. *)
Theorem categorize_lower (selectors : list str) :
  categorize_partial_selectors (map Py.lower selectors)
  = map (fun kv => (fst kv, map Py.lower (snd kv)))
        (categorize_partial_selectors selectors).
Proof.
  rewrite !categorize_eq. unfold buckets.
  induction bucket_names as [|n names IH]; simpl; [reflexivity|].
  rewrite members_lower.
  destruct (members selectors n); simpl; now rewrite IH.
Qed.

(* ================================================================== *)
(** ** Further properties of the manifest and of a run                  *)
(* ================================================================== *)

Module ManifestFacts.
Import PyFacts ReFacts ExtractFacts CatFacts TextFacts MatchFacts.

Lemma extract_array_good name content :
  Forall (fun x => x <> [] /\ substring x content)
         (extract_array name content).
Proof.
  apply Forall_forall. intros x H. unfold extract_array in H.
  destruct (find_array name content) as [m|] eqn:E; [|destruct H].
  split; [exact (@array_items_nonempty _ _ H)|].
  apply substring_trans with (group1 m); [exact (@array_items_sub _ _ H)|].
  unfold find_array in E.
  destruct (re_search (array_pattern name) content) as [m1|] eqn:E1.
  - injection E as <-. exact (search_group1_sub _ _ E1).
  - exact (search_group1_sub _ _ E).
Qed.

Lemma extract_simple_good name content :
  Forall (fun x => x <> [] /\ substring x content)
         (extract_js_array_simple name content).
Proof.
  apply Forall_forall. intros x H. unfold extract_js_array_simple in H.
  destruct (re_search (simple_pattern name) content) as [m|] eqn:E;
    [|destruct H].
  split; [exact (@collect_lines_nonempty _ _ H)|].
  apply substring_trans with (group1 m);
    [exact (@collect_lines_sub _ _ H) | exact (search_group1_sub _ _ E)].
Qed.

Lemma good_either (content scoring_content : str) l :
  Forall (fun x => x <> [] /\ substring x content) l
  \/ Forall (fun x => x <> [] /\ substring x scoring_content) l ->
  Forall (fun x => x <> []
                   /\ (substring x content \/ substring x scoring_content)) l.
Proof.
  intros [H|H]; eapply Forall_impl; try exact H; simpl; intuition.
Qed.

Lemma categorize_good selectors (P : str -> Prop) :
  Forall P selectors ->
  Forall (fun kv => In (fst kv) bucket_names /\ Forall P (snd kv))
         (categorize_partial_selectors selectors).
Proof.
  intros HP. apply Forall_forall. intros [k b] Hkb.
  apply in_categorize in Hkb as (Hk & -> & _). simpl. split; [exact Hk|].
  unfold members. apply Forall_forall. intros x Hx.
  apply filter_In in Hx as [Hx _].
  exact (proj1 (Forall_forall P selectors) HP x Hx).
Qed.

End ManifestFacts.
Import ManifestFacts.

(** X15: the manifest is complete and holds only text of the input.
    Whatever the two texts are, each of the thirteen sequence fields of
    the manifest is there and is an array of strings, none of them empty
    and each occurring in one of the two texts; and the patterns are a
    mapping whose keys are bucket names and whose strings are not empty
    and occur in the primary text. *)
Theorem manifest_complete (content scoring_content : str) :
  let m := manifest content scoring_content in
  Forall (fun field =>
            exists l,
              at_path field m = Some (strings l)
              /\ Forall (fun x => x <> []
                                  /\ (substring x content
                                      \/ substring x scoring_content)) l)
         ([lit_of "content_selectors"; lit_of "selectors"]
          :: other_sequence_fields)
  /\ exists d,
       at_path [lit_of "remove"; lit_of "partial_patterns";
                lit_of "patterns"] m
       = Some (of_dict d)
       /\ Forall (fun kv =>
                    In (fst kv) bucket_names
                    /\ Forall (fun x => x <> [] /\ substring x content)
                              (snd kv)) d.
Proof.
  intros m. split.
  - unfold other_sequence_fields.
    repeat (apply Forall_cons;
            [eexists; split;
             [reflexivity
             |apply good_either;
              first [left; apply extract_array_good
                    |right; apply extract_simple_good]]|]).
    apply Forall_nil.
  - eexists. split; [reflexivity|].
    apply categorize_good, extract_array_good.
Qed.

Module AsciiFacts.

Lemma escape_char_printable a : all_printable (escape_char a) = true.
Proof. destruct a as [[] [] [] [] [] [] [] []]; reflexivity. Qed.

Lemma all_printable_app s t :
  all_printable (s ++ t) = all_printable s && all_printable t.
Proof. apply forallb_app. Qed.

Lemma encode_string_printable s : all_printable (encode_string s) = true.
Proof.
  unfold encode_string. rewrite !all_printable_app.
  assert (H : all_printable (flat_map escape_char s) = true).
  { induction s as [|a s IH]; simpl; [reflexivity|].
    change (all_printable (escape_char a ++ flat_map escape_char s) = true).
    now rewrite all_printable_app, escape_char_printable, IH. }
  now rewrite H.
Qed.

Lemma newline_indent_printable level :
  all_printable (newline_indent level) = true.
Proof.
  unfold newline_indent. simpl.
  induction (level + (level + 0)) as [|n IH]; simpl; auto.
Qed.

Lemma join_printable sep pieces :
  all_printable sep = true ->
  Forall (fun p => all_printable p = true) pieces ->
  all_printable (Py.join sep pieces) = true.
Proof.
  intros Hsep. induction 1 as [|p ps Hp Hps IH]; [reflexivity|].
  destruct ps as [|p' ps]; [exact Hp|].
  change (Py.join sep (p :: p' :: ps))
    with (p ++ sep ++ Py.join sep (p' :: ps)).
  now rewrite !all_printable_app, Hp, Hsep, IH.
Qed.

Lemma separator_printable level :
  all_printable (lit_of "," ++ newline_indent level) = true.
Proof. now rewrite all_printable_app, newline_indent_printable. Qed.

(** Whatever the value, its text is printable ASCII and line breaks. *)
Lemma encode_printable : forall v level, all_printable (encode level v) = true.
Proof.
  fix IH 1. intros [s|items|members] level.
  - apply encode_string_printable.
  - destruct items as [|v items]; [reflexivity|].
    assert (Hitems : Forall (fun p => all_printable p = true)
                            (map (encode (S level)) (v :: items))).
    { constructor; [apply IH|].
      induction items as [|w items IHi]; constructor; [apply IH | exact IHi]. }
    cbn [encode]. rewrite !all_printable_app.
    rewrite newline_indent_printable, newline_indent_printable.
    rewrite (join_printable _ (separator_printable (S level)) Hitems).
    reflexivity.
  - destruct members as [|kv members]; [reflexivity|].
    assert (Hm : Forall (fun p => all_printable p = true)
                   (map (fun kv => encode_string (fst kv) ++ lit_of ": "
                                   ++ encode (S level) (snd kv))
                        (kv :: members))).
    { assert (Hone : forall k w,
                all_printable (encode (S level) w) = true ->
                all_printable (encode_string k ++ lit_of ": "
                               ++ encode (S level) w) = true).
      { intros k w Hw.
        now rewrite !all_printable_app, encode_string_printable, Hw. }
      constructor; [destruct kv as [k w]; apply Hone, IH|].
      induction members as [|[k w] members IHm]; constructor;
        [apply Hone, IH | exact IHm]. }
    cbn [encode]. rewrite !all_printable_app.
    rewrite newline_indent_printable, newline_indent_printable.
    rewrite (join_printable _ (separator_printable (S level)) Hm).
    reflexivity.
Qed.

End AsciiFacts.
Import AsciiFacts.

(** X17: a run prints ASCII only.  Whatever the files hold, every
    character on standard output is a printable ASCII character or a
    line break. *)
Theorem output_is_ascii
        (path : Type) (Path : str -> path) (path_str : path -> str)
        (sibling : path -> str -> path) (argv : list str) (d : disk path) :
  all_printable (stdout (main Path path_str sibling argv d)) = true.
Proof.
  assert (H : forall c sc, all_printable (stdout (print_manifest c sc)) = true).
  { intros c sc. unfold print_manifest, dumps. cbn [stdout].
    now rewrite all_printable_app, encode_printable. }
  unfold main.
  destruct (d (input_path Path argv)) as [[content|]|]; try reflexivity.
  destruct (d (scoring_path Path sibling argv)) as [[sc|]|];
    try reflexivity; apply H.
Qed.
